(** * chainsnaps: the snapshot scanner (app/services/snapshot_scanner.py)

    A shallow embedding of [SnapshotScannerService]: the directory-name
    parser [parse_snapshot_path], the per-directory reconciliation of
    [_scan_all_snapshots] against the [snapshots] table, and the run record
    written by [_run_single_scan].

    Modelling conventions.
    - A Python [str] is a [string]; its characters are code points below
      256, for which the regular-expression class [\d] is ['0'..'9'].
    - A Python sequence index that can raise [IndexError] is an [option].
    - The values [json.loads] produces are the type [pyval]; numbers with a
      fraction or an exponent are left out.
    - The object store (boto3) and the clock are inputs of the model; the
      database session stores what is written to it and its commits
      succeed. *)

From Stdlib Require Import List String Ascii ZArith Bool Arith Lia.
Import ListNotations.
Local Open Scope list_scope.
Local Open Scope string_scope.

(** ** Python string operations used by the scanner *)

Module PyStr.

(** [s.rstrip(c)] for a one-character argument: every trailing [c] goes. *)
Fixpoint rstrip (c : ascii) (s : string) : string :=
  match s with
  | EmptyString => EmptyString
  | String a r =>
      match rstrip c r with
      | EmptyString => if Ascii.eqb a c then EmptyString else String a EmptyString
      | r' => String a r'
      end
  end.

(** [s.split(c)]: the pieces between the occurrences of [c]; never empty. *)
Fixpoint split (c : ascii) (s : string) : list string :=
  match s with
  | EmptyString => [EmptyString]
  | String a r =>
      if Ascii.eqb a c then EmptyString :: split c r
      else match split c r with
           | h :: t => String a h :: t
           | [] => [String a EmptyString]
           end
  end.

(** [sep.join(l)]. *)
Fixpoint join (sep : string) (l : list string) : string :=
  match l with
  | [] => EmptyString
  | [x] => x
  | x :: r => x ++ sep ++ join sep r
  end.

(** [\d] on code points below 256. *)
Definition is_digit (a : ascii) : bool :=
  let n := nat_of_ascii a in ((48 <=? n) && (n <=? 57))%nat.

Definition newline : ascii := ascii_of_nat 10.

(** What is left of [s] after [\d+$] matched at its start: [$] matches at
    the end of the string and just before a newline that ends it. *)
Fixpoint digits_then_end (s : string) : option string :=
  match s with
  | EmptyString => None
  | String a r =>
      if is_digit a then
        match r with
        | EmptyString => Some EmptyString
        | String b EmptyString =>
            if Ascii.eqb b newline then Some r else digits_then_end r
        | _ => digits_then_end r
        end
      else None
  end.

(** A match of [-v\d+$] at the start of [s]; the result is the text after
    the match. *)
Definition match_version_suffix (s : string) : option string :=
  match s with
  | String a (String b r) =>
      if Ascii.eqb a "-"%char && Ascii.eqb b "v"%char then digits_then_end r else None
  | _ => None
  end.

(** [re.sub(r'-v\d+$', '', s)]: scan from the left, drop the first match.
    What follows a match is empty or one newline, so no second match
    exists. *)
Fixpoint re_sub_version (s : string) : string :=
  match match_version_suffix s with
  | Some rest => rest
  | None =>
      match s with
      | EmptyString => EmptyString
      | String a r => String a (re_sub_version r)
      end
  end.

(** [l[i]] with Python's negative indices; [None] is [IndexError]. *)
Definition index {A} (l : list A) (i : Z) : option A :=
  let n := Z.of_nat (List.length l) in
  if (0 <=? i)%Z then nth_error l (Z.to_nat i)
  else if (0 <=? n + i)%Z then nth_error l (Z.to_nat (n + i))
  else None.

(** [l[:i]] for a negative [i]: all but the last [-i] elements. *)
Definition slice_to_neg {A} (l : list A) (k : nat) : list A :=
  firstn (List.length l - k) l.

End PyStr.

(** ** parse_snapshot_path *)

Record ParsedInfo := mkParsed {
  p_chain : string;
  p_client : string;
  p_network : string;
  p_type : string
}.

(** Lines 36-41: [clean_path] and its split on ['-']. *)
Definition clean_path (protocol_dir : string) : string :=
  PyStr.re_sub_version (PyStr.rstrip "/"%char protocol_dir).

Definition path_parts (protocol_dir : string) : list string :=
  PyStr.split "-"%char (clean_path protocol_dir).

Definition bind {A B} (o : option A) (f : A -> option B) : option B :=
  match o with Some a => f a | None => None end.

Notation "x <- e ;; k" := (bind e (fun x => k))
  (at level 61, e at next level, right associativity).

(** [parts[i] if cond else default] *)
Definition index_if {A} (cond : bool) (l : list A) (i : Z) (default : A) : option A :=
  if cond then PyStr.index l i else Some default.

(** Lines 36-64. [None] stands for an uncaught [IndexError]. *)
Definition parse_snapshot_path (protocol_dir : string) : option ParsedInfo :=
  let parts := path_parts protocol_dir in
  if (4 <=? List.length parts)%nat then
    snapshot_type <- PyStr.index parts (-1) ;;
    network <- PyStr.index parts (-2) ;;
    client <- PyStr.index parts (-3) ;;
    let chain := PyStr.join "-" (PyStr.slice_to_neg parts 3) in
    Some (mkParsed chain client network snapshot_type)
  else
    chain <- index_if (negb (Nat.eqb (List.length parts) 0)) parts 0 "unknown" ;;
    client <- index_if (1 <? List.length parts)%nat parts 1 "unknown" ;;
    network <- index_if (2 <? List.length parts)%nat parts 2 "mainnet" ;;
    type <- index_if (3 <? List.length parts)%nat parts 3 "archive" ;;
    Some (mkParsed chain client network type).


(** ** Python values

    What [json.loads] returns, and what a nullable column holds.  A dict is
    kept as its list of bindings; a lookup takes the first binding of a key. *)

#[local] Set Warnings "-register-all".
Inductive pyval : Type :=
| PNone
| PBool (b : bool)
| PInt (n : Z)
| PStr (s : string)
| PList (l : list pyval)
| PDict (d : list (string * pyval)).

Fixpoint assoc_get {V} (d : list (string * V)) (k : string) : option V :=
  match d with
  | [] => None
  | (k', v) :: r => if String.eqb k' k then Some v else assoc_get r k
  end.

Definition has_key {V} (d : list (string * V)) (k : string) : bool :=
  match assoc_get d k with Some _ => true | None => false end.

Definition mem_string (k : string) (l : list string) : bool :=
  existsb (String.eqb k) l.

(** [d.get(k, default)] *)
Definition dict_get (d : list (string * pyval)) (k : string) (default : pyval) : pyval :=
  match assoc_get d k with Some v => v | None => default end.

(** Truth value of a Python object in an [if]. *)
Definition truthy (v : pyval) : bool :=
  match v with
  | PNone => false
  | PBool b => b
  | PInt n => negb (n =? 0)%Z
  | PStr s => negb (String.eqb s EmptyString)
  | PList l => match l with [] => false | _ => true end
  | PDict d => match d with [] => false | _ => true end
  end.

(** Element-wise comparison of two lists of the same length. *)
Definition all2 {A} (eq : A -> A -> bool) : list A -> list A -> bool :=
  fix all2 (x y : list A) {struct x} : bool :=
    match x, y with
    | [], [] => true
    | u :: x', w :: y' => eq u w && all2 x' y'
    | _, _ => false
    end.

(** Every key of [x] not in [seen] is bound in [y] to an equal value; only
    the first binding of a key counts. *)
Definition dict_sub {V} (eq : V -> V -> bool) (y : list (string * V))
  : list string -> list (string * V) -> bool :=
  fix sub (seen : list string) (x : list (string * V)) {struct x} : bool :=
    match x with
    | [] => true
    | (k, v) :: x' =>
        (if mem_string k seen then true
         else match assoc_get y k with
              | Some w => eq v w
              | None => false
              end)
        && sub (k :: seen) x'
    end.

(** Python's [==]: [bool] is a subtype of [int]; lists compare element by
    element; dicts compare as mappings, whatever the order of the keys. *)
Fixpoint py_eq (a b : pyval) {struct a} : bool :=
  match a, b with
  | PNone, PNone => true
  | PBool x, PBool y => Bool.eqb x y
  | PBool x, PInt y => (Z.b2z x =? y)%Z
  | PInt x, PBool y => (x =? Z.b2z y)%Z
  | PInt x, PInt y => (x =? y)%Z
  | PStr x, PStr y => String.eqb x y
  | PList x, PList y => all2 py_eq x y
  | PDict x, PDict y =>
      dict_sub py_eq y [] x && forallb (fun kw => has_key x (fst kw)) y
  | _, _ => false
  end.

(** Python's [!=]. *)
Definition py_ne (a b : pyval) : bool := negb (py_eq a b).

(** Induction on a value with its elements and bindings. *)
Section PyvalInduction.
Variable P : pyval -> Prop.
Hypothesis HNone : P PNone.
Hypothesis HBool : forall b, P (PBool b).
Hypothesis HInt : forall n, P (PInt n).
Hypothesis HStr : forall s, P (PStr s).
Hypothesis HList : forall l, Forall P l -> P (PList l).
Hypothesis HDict : forall d, Forall (fun kv => P (snd kv)) d -> P (PDict d).

Fixpoint pyval_nested_ind (v : pyval) : P v :=
  match v with
  | PNone => HNone
  | PBool b => HBool b
  | PInt n => HInt n
  | PStr s => HStr s
  | PList l =>
      HList l
        ((fix go (l : list pyval) : Forall P l :=
            match l with
            | [] => Forall_nil P
            | x :: r => Forall_cons x (pyval_nested_ind x) (go r)
            end) l)
  | PDict d =>
      HDict d
        ((fix go (d : list (string * pyval)) : Forall (fun kv => P (snd kv)) d :=
            match d with
            | [] => Forall_nil _
            | kv :: r => Forall_cons kv (pyval_nested_ind (snd kv)) (go r)
            end) d)
  end.
End PyvalInduction.

(** ** The [snapshots] table (app/db_models.py, class Snapshot)

    Every column but the surrogate key [id]; a nullable column that the
    scanner assigns a Python value to holds a [pyval]. *)

Module Snapshot.
Record t := mk {
  chain : string;
  client : string;
  network : string;
  type : string;
  snapshot_path : string;
  snapshot_id : string;
  manifest_body_path : string;
  manifest_header_path : option string;
  total_size_bytes : pyval;
  total_chunks : pyval;
  compression_type : pyval;
  block_height : pyval;
  has_blobs : pyval;
  blob_start_block : pyval;
  blob_end_block : pyval;
  snapshot_metadata : pyval;
  external_metadata : pyval;
  snapshot_created_at : option Z;
  indexed_at : Z;
  last_updated_at : Z;
  is_active : bool;
  is_complete : pyval
}.

Definition set_total_size_bytes (v : pyval) (s : t) : t :=
  mk (chain s) (client s) (network s) (type s) (snapshot_path s) (snapshot_id s)
     (manifest_body_path s) (manifest_header_path s)
     v (total_chunks s) (compression_type s)
     (block_height s) (has_blobs s) (blob_start_block s) (blob_end_block s)
     (snapshot_metadata s) (external_metadata s)
     (snapshot_created_at s) (indexed_at s) (last_updated_at s)
     (is_active s) (is_complete s).

Definition set_total_chunks (v : pyval) (s : t) : t :=
  mk (chain s) (client s) (network s) (type s) (snapshot_path s) (snapshot_id s)
     (manifest_body_path s) (manifest_header_path s)
     (total_size_bytes s) v (compression_type s)
     (block_height s) (has_blobs s) (blob_start_block s) (blob_end_block s)
     (snapshot_metadata s) (external_metadata s)
     (snapshot_created_at s) (indexed_at s) (last_updated_at s)
     (is_active s) (is_complete s).

Definition set_compression_type (v : pyval) (s : t) : t :=
  mk (chain s) (client s) (network s) (type s) (snapshot_path s) (snapshot_id s)
     (manifest_body_path s) (manifest_header_path s)
     (total_size_bytes s) (total_chunks s) v
     (block_height s) (has_blobs s) (blob_start_block s) (blob_end_block s)
     (snapshot_metadata s) (external_metadata s)
     (snapshot_created_at s) (indexed_at s) (last_updated_at s)
     (is_active s) (is_complete s).

Definition set_snapshot_metadata (v : pyval) (s : t) : t :=
  mk (chain s) (client s) (network s) (type s) (snapshot_path s) (snapshot_id s)
     (manifest_body_path s) (manifest_header_path s)
     (total_size_bytes s) (total_chunks s) (compression_type s)
     (block_height s) (has_blobs s) (blob_start_block s) (blob_end_block s)
     v (external_metadata s)
     (snapshot_created_at s) (indexed_at s) (last_updated_at s)
     (is_active s) (is_complete s).

Definition set_last_updated_at (z : Z) (s : t) : t :=
  mk (chain s) (client s) (network s) (type s) (snapshot_path s) (snapshot_id s)
     (manifest_body_path s) (manifest_header_path s)
     (total_size_bytes s) (total_chunks s) (compression_type s)
     (block_height s) (has_blobs s) (blob_start_block s) (blob_end_block s)
     (snapshot_metadata s) (external_metadata s)
     (snapshot_created_at s) (indexed_at s) z
     (is_active s) (is_complete s).
End Snapshot.

(** [db.query(Snapshot).filter(Snapshot.snapshot_path == p).first()] *)
Fixpoint query_first (p : string) (rows : list Snapshot.t) : option Snapshot.t :=
  match rows with
  | [] => None
  | r :: rest =>
      if String.eqb (Snapshot.snapshot_path r) p then Some r else query_first p rest
  end.

(** Committing the attributes assigned to the object [query_first] gave:
    the first row with that path is replaced. *)
Fixpoint commit_row (p : string) (r' : Snapshot.t) (rows : list Snapshot.t)
  : list Snapshot.t :=
  match rows with
  | [] => []
  | r :: rest =>
      if String.eqb (Snapshot.snapshot_path r) p then r' :: rest
      else r :: commit_row p r' rest
  end.

(** ** The object store as the scanner sees it

    boto3 is outside the repository: what its calls answer is an input. *)

(** The exceptions the handlers tell apart: [client.exceptions.NoSuchKey]
    and every other [Exception], botocore's plain [ClientError] among them;
    [str e] is [str(e)]. *)
Inductive exn :=
| NoSuchKey (msg : string)
| OtherException (msg : string).

Definition str (e : exn) : string :=
  match e with NoSuchKey m => m | OtherException m => m end.

(** One entry of ["CommonPrefixes"]: its ["Prefix"], when it has one. *)
Definition prefix_obj := option string.

(** One page of [list_objects_v2]: its ["CommonPrefixes"], when present. *)
Definition page := option (list prefix_obj).

(** Iterating [paginator.paginate(...)]: the pages it yields, and the
    exception that ends the iteration, if any. *)
Record paginated := mkPaginated {
  pages : list page;
  raises : option exn
}.

(** [get_object], [Body.read()] and [json.loads] on a key. *)
Inductive fetched :=
| Parsed (v : pyval)
| Raised (e : exn).

Record ObjectStore := mkStore {
  (** [paginate(Bucket=..., Delimiter="/")] *)
  list_root : paginated;
  (** [paginate(Bucket=..., Prefix=protocol_dir, Delimiter="/")] *)
  list_prefix : string -> paginated;
  (** [head_object(Bucket=..., Key=k)]: [None] when it returns. *)
  head_object : string -> option exn;
  (** [json.loads(get_object(Bucket=..., Key=k)["Body"].read())] *)
  get_json : string -> fetched
}.

(** The environment of a pass: [get_s3_client()], [datetime.utcnow()] and
    the database's [func.now()], the clocks indexed by the number of
    readings made so far. *)
Record Env := mkEnv {
  get_s3_client : ObjectStore + exn;
  utcnow : nat -> Z;
  func_now : nat -> Z
}.

(** ** _scan_all_snapshots *)

(** The session's rows, the clock readings made, and the local variables
    of lines 247-251. *)
Record ScanState := mkScan {
  db : list Snapshot.t;
  ticks : nat;
  snapshots_found : nat;
  new_snapshots : nat;
  updated_snapshots : nat;
  errors : list string;
  prefixes_scanned : list string
}.

Definition append_error (msg : string) (st : ScanState) : ScanState :=
  mkScan (db st) (ticks st) (snapshots_found st) (new_snapshots st)
         (updated_snapshots st) ((errors st ++ [msg])%list) (prefixes_scanned st).

Definition append_prefix (p : string) (st : ScanState) : ScanState :=
  mkScan (db st) (ticks st) (snapshots_found st) (new_snapshots st)
         (updated_snapshots st) (errors st) ((prefixes_scanned st ++ [p])%list).

Definition found_one (st : ScanState) : ScanState :=
  mkScan (db st) (ticks st) (S (snapshots_found st)) (new_snapshots st)
         (updated_snapshots st) (errors st) (prefixes_scanned st).

(** Lines 312-335: the optional header manifest. *)
Record HeaderInfo := mkHeader {
  header_data : pyval;
  total_size : pyval;
  total_chunks : pyval;
  compression_type : pyval
}.

Definition read_header (s3 : ObjectStore) (manifest_header_path : string) : HeaderInfo :=
  match get_json s3 manifest_header_path with
  | Raised _ => mkHeader PNone PNone PNone PNone
  | Parsed (PDict d) =>
      let total_size := dict_get d "total_size" (PInt 0) in
      let total_chunks := dict_get d "chunks" (PInt 0) in
      let compression_info := dict_get d "compression" (PDict []) in
      let compression_type :=
        match compression_info with
        | PDict c => dict_get c "algorithm" PNone
        | _ => PNone
        end in
      mkHeader (PDict d) total_size total_chunks compression_type
  | Parsed v =>
      (* [header_data.get] raises AttributeError after [header_data] is bound *)
      mkHeader v PNone PNone PNone
  end.

(** Lines 339-348: the three guarded assignments and the [updated] flag. *)
Definition refresh_fields (h : HeaderInfo) (existing : Snapshot.t) : Snapshot.t * bool :=
  let '(s1, u1) :=
    if truthy (total_size h) && py_ne (Snapshot.total_size_bytes existing) (total_size h)
    then (Snapshot.set_total_size_bytes (total_size h) existing, true)
    else (existing, false) in
  let '(s2, u2) :=
    if truthy (total_chunks h) && py_ne (Snapshot.total_chunks s1) (total_chunks h)
    then (Snapshot.set_total_chunks (total_chunks h) s1, true)
    else (s1, u1) in
  if truthy (compression_type h) && py_ne (Snapshot.compression_type s2) (compression_type h)
  then (Snapshot.set_compression_type (compression_type h) s2, true)
  else (s2, u2).

(** Lines 337-356: an existing row. *)
Definition update_existing (env : Env) (h : HeaderInfo) (existing : Snapshot.t)
    (st : ScanState) : ScanState :=
  let '(s, updated) := refresh_fields h existing in
  if updated then
    let s := Snapshot.set_last_updated_at (utcnow env (ticks st)) s in
    let s := if truthy (header_data h)
             then Snapshot.set_snapshot_metadata (header_data h) s else s in
    mkScan (commit_row (Snapshot.snapshot_path existing) s (db st))
           (S (ticks st)) (snapshots_found st) (new_snapshots st)
           (S (updated_snapshots st)) (errors st) (prefixes_scanned st)
  else st.

(** Lines 359-373: the row of a directory seen for the first time; the
    columns not named take their defaults. *)
Definition new_snapshot (env : Env) (now : nat) (parsed_info : ParsedInfo)
    (version_dir snapshot_id manifest_body_path manifest_header_path : string)
    (h : HeaderInfo) : Snapshot.t :=
  Snapshot.mk
    (p_chain parsed_info) (p_client parsed_info)
    (p_network parsed_info) (p_type parsed_info)
    (PyStr.rstrip "/"%char version_dir) snapshot_id
    manifest_body_path
    (if truthy (header_data h) then Some manifest_header_path else None)
    (total_size h) (total_chunks h) (compression_type h)
    PNone PNone PNone PNone
    (header_data h) PNone
    None (utcnow env now) (func_now env now)
    true PNone.

Definition create_new (env : Env) (r : Snapshot.t) (st : ScanState) : ScanState :=
  mkScan ((db st ++ [r])%list) (S (ticks st)) (snapshots_found st)
         (S (new_snapshots st)) (updated_snapshots st)
         (errors st) (prefixes_scanned st).

Definition error_processing (version_dir msg : string) : string :=
  "Error processing " ++ version_dir ++ ": " ++ msg.

(** Lines 288-388: the body of the innermost loop for one version
    directory, with its two handlers. *)
Definition process_version_dir (env : Env) (s3 : ObjectStore)
    (protocol_dir version_dir : string) (st : ScanState) : ScanState :=
  let manifest_body_path := version_dir ++ "manifest-body.json" in
  let manifest_header_path := version_dir ++ "manifest-header.json" in
  match head_object s3 manifest_body_path with
  | Some (NoSuchKey _) => st
  | Some e => append_error (error_processing version_dir (str e)) st
  | None =>
      let path_parts := PyStr.split "/"%char (PyStr.rstrip "/"%char version_dir) in
      match PyStr.index path_parts (-1), parse_snapshot_path protocol_dir with
      | Some snapshot_id, Some parsed_info =>
          let existing_snapshot := query_first (PyStr.rstrip "/"%char version_dir) (db st) in
          let h := read_header s3 manifest_header_path in
          found_one
            match existing_snapshot with
            | Some existing => update_existing env h existing st
            | None =>
                create_new env
                  (new_snapshot env (ticks st) parsed_info version_dir snapshot_id
                     manifest_body_path manifest_header_path h) st
            end
      | _, _ =>
          append_error (error_processing version_dir "list index out of range") st
      end
  end.

(** Lines 283-388: the loop over one page of version prefixes. *)
Definition scan_version_page (env : Env) (s3 : ObjectStore) (protocol_dir : string)
    (version_page : page) (st : ScanState) : ScanState :=
  match version_page with
  | None => st
  | Some common_prefixes =>
      fold_left
        (fun st (version_prefix : prefix_obj) =>
           let version_dir := match version_prefix with Some p => p | None => "" end in
           if String.eqb version_dir "" then st
           else process_version_dir env s3 protocol_dir version_dir st)
        common_prefixes st
  end.

(** Lines 271-388: one protocol directory.  The exception, if any, is the
    one that ends the iteration over the version pages. *)
Definition scan_protocol_dir (env : Env) (s3 : ObjectStore) (protocol_dir : string)
    (st : ScanState) : ScanState * option exn :=
  let st := append_prefix (PyStr.rstrip "/"%char protocol_dir) st in
  let listing := list_prefix s3 protocol_dir in
  (fold_left (fun st pg => scan_version_page env s3 protocol_dir pg st)
     (pages listing) st,
   raises listing).

(** Lines 266-388: the protocol prefixes of one root page; an exception
    leaves the loop at once. *)
Fixpoint scan_protocol_prefixes (env : Env) (s3 : ObjectStore)
    (common_prefixes : list prefix_obj) (st : ScanState) : ScanState * option exn :=
  match common_prefixes with
  | [] => (st, None)
  | prefix_obj :: rest =>
      let protocol_dir := match prefix_obj with Some p => p | None => "" end in
      if String.eqb protocol_dir "" then scan_protocol_prefixes env s3 rest st
      else
        match scan_protocol_dir env s3 protocol_dir st with
        | (st', Some e) => (st', Some e)
        | (st', None) => scan_protocol_prefixes env s3 rest st'
        end
  end.

(** Lines 258-388: the root pages yielded before the listing fails. *)
Fixpoint scan_root_pages (env : Env) (s3 : ObjectStore)
    (root_pages : list page) (st : ScanState) : ScanState * option exn :=
  match root_pages with
  | [] => (st, None)
  | None :: rest => scan_root_pages env s3 rest st
  | Some common_prefixes :: rest =>
      match scan_protocol_prefixes env s3 common_prefixes st with
      | (st', Some e) => (st', Some e)
      | (st', None) => scan_root_pages env s3 rest st'
      end
  end.

(** Lines 253-388: the body of the outer [try]. *)
Definition scan_bucket (env : Env) (s3 : ObjectStore) (st : ScanState)
  : ScanState * option exn :=
  match scan_root_pages env s3 (pages (list_root s3)) st with
  | (st', Some e) => (st', Some e)
  | (st', None) => (st', raises (list_root s3))
  end.

Definition error_scanning_bucket (e : exn) : string :=
  "Error scanning bucket: " ++ str e.

(** Lines 242-401.  [get_s3_client()] is called outside the [try]: its
    exception leaves the function.  The returned dict is the counters, the
    errors and the prefixes of the final state. *)
Definition _scan_all_snapshots (env : Env) (rows : list Snapshot.t) (now : nat)
  : ScanState + exn :=
  match get_s3_client env with
  | inr e => inr e
  | inl s3 =>
      let st0 := mkScan rows now 0 0 0 [] [] in
      match scan_bucket env s3 st0 with
      | (st, Some e) => inl (append_error (error_scanning_bucket e) st)
      | (st, None) => inl st
      end
  end.

(** ** The [scan_history] table and _run_single_scan *)

Module ScanHistory.
Record t := mk {
  started_at : Z;
  completed_at : option Z;
  scan_type : string;
  snapshots_found : nat;
  new_snapshots : nat;
  updated_snapshots : nat;
  errors : option (list string);
  prefixes_scanned : option (list string);
  duration_seconds : option Z
}.
End ScanHistory.

(** The dict a pass returns, by its ["status"]. *)
Inductive ScanResult :=
| Completed (scan_type : string)
            (snapshots_found new_snapshots updated_snapshots chains_scanned : nat)
            (errors : list string) (duration_seconds timestamp : Z)
| Error (message : string) (timestamp : Z).



(** The database and the clock between two passes. *)
Record World := mkWorld {
  snapshots : list Snapshot.t;
  scan_history : list ScanHistory.t;
  clock : nat
}.

(** Lines 203-212: the run row when the pass returned. *)
Definition close_completed (start_time end_time : Z) (scan_type : string)
    (st : ScanState) : ScanHistory.t :=
  ScanHistory.mk start_time (Some end_time) scan_type
    (0 + snapshots_found st) (0 + new_snapshots st) (0 + updated_snapshots st)
    (match errors st with [] => None | errs => Some errs end)
    (Some (prefixes_scanned st))
    (Some (end_time - start_time)%Z).

(** Lines 231-235: the run row when an exception reached the handler; the
    counters keep the values the row was opened with. *)
Definition close_fatal (start_time now : Z) (scan_type : string) (e : exn)
  : ScanHistory.t :=
  ScanHistory.mk start_time (Some now) scan_type 0 0 0
    (Some ["Fatal error: " ++ str e]) None None.

(** Lines 167-240. *)
Definition _run_single_scan (env : Env) (scan_type : string) (w : World)
  : ScanResult * World :=
  let start_time := utcnow env (clock w) in
  let t := S (clock w) in
  let fatal (e : exn) :=
    (Error (str e) (utcnow env (S t)),
     mkWorld (snapshots w)
       (scan_history w ++ [close_fatal start_time (utcnow env t) scan_type e])%list
       (S (S t))) in
  match get_s3_client env with
  | inr e => fatal e
  | inl _ =>
      match _scan_all_snapshots env (snapshots w) t with
      | inr e => fatal e
      | inl st =>
          let end_time := utcnow env (ticks st) in
          (Completed scan_type
             (0 + snapshots_found st) (0 + new_snapshots st)
             (0 + updated_snapshots st) (List.length (prefixes_scanned st))
             (errors st) (end_time - start_time)%Z end_time,
           mkWorld (db st)
             (scan_history w ++ [close_completed start_time end_time scan_type st])%list
             (S (ticks st)))
      end
  end.


(** ** The steps of a pass, in order

    The traversal of lines 258-286 does not depend on the database: it
    enters protocol directories and visits version directories in the order
    of the listings, up to the first listing that raises. *)

Inductive event :=
| Enter (protocol_dir : string)
| Visit (protocol_dir version_dir : string).

Definition run_event (env : Env) (s3 : ObjectStore) (ev : event) (st : ScanState)
  : ScanState :=
  match ev with
  | Enter protocol_dir => append_prefix (PyStr.rstrip "/"%char protocol_dir) st
  | Visit protocol_dir version_dir => process_version_dir env s3 protocol_dir version_dir st
  end.

Definition run_events (env : Env) (s3 : ObjectStore) (evs : list event) (st : ScanState)
  : ScanState :=
  fold_left (fun st ev => run_event env s3 ev st) evs st.

Definition page_events (protocol_dir : string) (version_page : page) : list event :=
  match version_page with
  | None => []
  | Some common_prefixes =>
      flat_map
        (fun version_prefix : prefix_obj =>
           let version_dir := match version_prefix with Some p => p | None => "" end in
           if String.eqb version_dir "" then [] else [Visit protocol_dir version_dir])
        common_prefixes
  end.

Definition protocol_dir_events (s3 : ObjectStore) (protocol_dir : string) : list event :=
  Enter protocol_dir
    :: flat_map (page_events protocol_dir) (pages (list_prefix s3 protocol_dir)).

Fixpoint protocol_prefixes_events (s3 : ObjectStore) (common_prefixes : list prefix_obj)
  : list event * option exn :=
  match common_prefixes with
  | [] => ([], None)
  | prefix_obj :: rest =>
      let protocol_dir := match prefix_obj with Some p => p | None => "" end in
      if String.eqb protocol_dir "" then protocol_prefixes_events s3 rest
      else
        match raises (list_prefix s3 protocol_dir) with
        | Some e => (protocol_dir_events s3 protocol_dir, Some e)
        | None =>
            let '(evs, r) := protocol_prefixes_events s3 rest in
            ((protocol_dir_events s3 protocol_dir ++ evs)%list, r)
        end
  end.

Fixpoint root_pages_events (s3 : ObjectStore) (root_pages : list page)
  : list event * option exn :=
  match root_pages with
  | [] => ([], None)
  | None :: rest => root_pages_events s3 rest
  | Some common_prefixes :: rest =>
      match protocol_prefixes_events s3 common_prefixes with
      | (evs, Some e) => (evs, Some e)
      | (evs, None) =>
          let '(evs', r) := root_pages_events s3 rest in
          ((evs ++ evs')%list, r)
      end
  end.

Definition bucket_events (s3 : ObjectStore) : list event * option exn :=
  match root_pages_events s3 (pages (list_root s3)) with
  | (evs, Some e) => (evs, Some e)
  | (evs, None) => (evs, raises (list_root s3))
  end.

(** The version directories a pass visits. *)
Definition visited (evs : list event) : list string :=
  flat_map (fun ev => match ev with Visit _ v => [v] | Enter _ => [] end) evs.

(** The natural key of a version directory (lines 308 and 364). *)
Definition natural_key (version_dir : string) : string :=
  PyStr.rstrip "/"%char version_dir.

(** No two version directories of the listing share a natural key. *)
Definition keys_unambiguous (dirs : list string) : Prop :=
  forall v w, In v dirs -> In w dirs -> natural_key v = natural_key w -> v = w.

(** The condition of lines 340-348 under which a row is written. *)
Definition field_differs (new stored : pyval) : bool :=
  truthy new && py_ne stored new.

Definition needs_update (h : HeaderInfo) (r : Snapshot.t) : bool :=
  field_differs (total_size h) (Snapshot.total_size_bytes r)
  || field_differs (total_chunks h) (Snapshot.total_chunks r)
  || field_differs (compression_type h) (Snapshot.compression_type r).

(** The row the update path commits. *)
Definition refreshed_row (env : Env) (h : HeaderInfo) (r : Snapshot.t) (now : nat)
  : Snapshot.t :=
  let s := Snapshot.set_last_updated_at (utcnow env now) (fst (refresh_fields h r)) in
  if truthy (header_data h) then Snapshot.set_snapshot_metadata (header_data h) s else s.

(** The columns the update path never assigns. *)
Definition same_frame (r r' : Snapshot.t) : Prop :=
  Snapshot.chain r' = Snapshot.chain r
  /\ Snapshot.client r' = Snapshot.client r
  /\ Snapshot.network r' = Snapshot.network r
  /\ Snapshot.type r' = Snapshot.type r
  /\ Snapshot.snapshot_path r' = Snapshot.snapshot_path r
  /\ Snapshot.snapshot_id r' = Snapshot.snapshot_id r
  /\ Snapshot.manifest_body_path r' = Snapshot.manifest_body_path r
  /\ Snapshot.manifest_header_path r' = Snapshot.manifest_header_path r
  /\ Snapshot.block_height r' = Snapshot.block_height r
  /\ Snapshot.has_blobs r' = Snapshot.has_blobs r
  /\ Snapshot.blob_start_block r' = Snapshot.blob_start_block r
  /\ Snapshot.blob_end_block r' = Snapshot.blob_end_block r
  /\ Snapshot.external_metadata r' = Snapshot.external_metadata r
  /\ Snapshot.snapshot_created_at r' = Snapshot.snapshot_created_at r
  /\ Snapshot.indexed_at r' = Snapshot.indexed_at r
  /\ Snapshot.is_active r' = Snapshot.is_active r
  /\ Snapshot.is_complete r' = Snapshot.is_complete r.

(** [c in s] *)
Fixpoint contains (c : ascii) (s : string) : bool :=
  match s with
  | EmptyString => false
  | String a r => Ascii.eqb a c || contains c r
  end.

Fixpoint all_digits (s : string) : bool :=
  match s with
  | EmptyString => true
  | String a r => PyStr.is_digit a && all_digits r
  end.

(** A common prefix that [list_objects_v2] returns for [Prefix=prefix] and
    [Delimiter="/"]: the prefix, a name without ['/'], and the delimiter. *)
Definition delimited (prefix p : string) : Prop :=
  exists name, contains "/" name = false /\ p = prefix ++ name ++ "/".

(** Every visit of the traversal is to a version prefix delimited under a
    protocol prefix delimited at the root. *)
Definition delimited_listing (evs : list event) : Prop :=
  forall protocol_dir version_dir,
    In (Visit protocol_dir version_dir) evs ->
    delimited "" protocol_dir /\ delimited protocol_dir version_dir.





(** ** A small bucket

    Two protocol directories.  [ethereum-reth-mainnet-archive-v1/] holds
    version [1/] with both manifests, version [2/] whose header manifest is
    not JSON, and [tmp/] without a body manifest.  The answers for a
    missing key are those of boto3: [get_object] raises [NoSuchKey];
    [head_object], whose response has no body, raises a [ClientError] with
    code 404, the case [S3Client.get_snapshot_metadata] handles.
    [arbitrum-one-nitro-mainnet-full-v1/] holds version [1/], whose header
    manifest has no ["total_size"]. *)

Module Demo.
Definition eth : string := "ethereum-reth-mainnet-archive-v1/".
Definition arb : string := "arbitrum-one-nitro-mainnet-full-v1/".

Definition head_not_found : exn :=
  OtherException
    "An error occurred (404) when calling the HeadObject operation: Not Found".

Definition get_not_found : exn :=
  NoSuchKey
    "An error occurred (NoSuchKey) when calling the GetObject operation: The specified key does not exist.".

Definition eth1_header : pyval :=
  PDict [("total_size", PInt 1000); ("chunks", PInt 4);
         ("compression", PDict [("algorithm", PStr "zstd")])].

Definition arb1_header : pyval :=
  PDict [("chunks", PInt 7)].

Definition store : ObjectStore :=
  mkStore
    (mkPaginated [Some [Some eth; Some arb]; None] None)
    (fun prefix =>
       if String.eqb prefix eth then
         mkPaginated [Some [Some (eth ++ "1/"); Some (eth ++ "2/")];
                      Some [Some (eth ++ "tmp/")]] None
       else if String.eqb prefix arb then
         mkPaginated [Some [Some (arb ++ "1/")]] None
       else mkPaginated [] None)
    (fun key =>
       if String.eqb key (eth ++ "1/manifest-body.json") then None
       else if String.eqb key (eth ++ "2/manifest-body.json") then None
       else if String.eqb key (arb ++ "1/manifest-body.json") then None
       else Some head_not_found)
    (fun key =>
       if String.eqb key (eth ++ "1/manifest-header.json") then Parsed eth1_header
       else if String.eqb key (eth ++ "2/manifest-header.json")
            then Raised (OtherException "Expecting value: line 1 column 1 (char 0)")
       else if String.eqb key (arb ++ "1/manifest-header.json") then Parsed arb1_header
       else Raised get_not_found).





Definition clock (n : nat) : Z := (1700000000 + Z.of_nat n)%Z.

Definition env : Env := mkEnv (inl store) clock clock.

(** A row for [arbitrum-one-nitro-mainnet-full-v1/1] indexed earlier,
    with a size of 5 bytes and a curated annotation. *)
Definition arb1_row : Snapshot.t :=
  Snapshot.mk "arbitrum-one" "nitro" "mainnet" "full"
    "arbitrum-one-nitro-mainnet-full-v1/1" "1"
    (arb ++ "1/manifest-body.json") None
    (PInt 5) (PInt 6) PNone
    PNone PNone PNone PNone
    PNone (PDict [("owner", PStr "ops")])
    None 1600000000 1600000000 true PNone.

Definition state0 (rows : list Snapshot.t) : ScanState :=
  mkScan rows 0 0 0 0 [] [].

End Demo.

(** ** What a pass reports, in terms of its steps *)

(** The check of the body manifest returned. *)
Definition has_body (s3 : ObjectStore) (version_dir : string) : bool :=
  match head_object s3 (version_dir ++ "manifest-body.json") with
  | None => true
  | Some _ => false
  end.

(** The error a version directory adds to the run, if any: the check of
    its body manifest raised something else than [NoSuchKey]. *)
Definition item_error (s3 : ObjectStore) (version_dir : string) : list string :=
  match head_object s3 (version_dir ++ "manifest-body.json") with
  | Some (OtherException m) => [error_processing version_dir m]
  | _ => []
  end.


(** The error that ends a traversal, as [errors] has it. *)
Definition traversal_error (r : option exn) : list string :=
  match r with Some e => [error_scanning_bucket e] | None => [] end.

(** The state in which [_scan_all_snapshots] starts (lines 247-251). *)
Definition initial_state (rows : list Snapshot.t) (now : nat) : ScanState :=
  mkScan rows now 0 0 0 [] [].

Definition paths (rows : list Snapshot.t) : list string :=
  map Snapshot.snapshot_path rows.



(** ** update_snapshot (app/routers/snapshots.py)

    The request body and the assignments of lines 149-167 to the row the
    handler found, up to the commit. *)

Module SnapshotUpdateRequest.
Record t := mk {
  block_height : option Z;
  has_blobs : option bool;
  blob_start_block : option Z;
  blob_end_block : option Z;
  is_complete : option bool;
  external_metadata : option (list (string * pyval))
}.
End SnapshotUpdateRequest.

(** [d[k] = v]: a bound key keeps its place, a new one goes last. *)
Fixpoint dict_set (d : list (string * pyval)) (k : string) (v : pyval)
  : list (string * pyval) :=
  match d with
  | [] => [(k, v)]
  | (k', v') :: r =>
      if String.eqb k' k then (k, v) :: r else (k', v') :: dict_set r k v
  end.

(** [d.update(other)] *)
Definition dict_update (d other : list (string * pyval)) : list (string * pyval) :=
  fold_left (fun d kv => dict_set d (fst kv) (snd kv)) other d.

Definition pick {A} (new : option A) (inj : A -> pyval) (old : pyval) : pyval :=
  match new with Some v => inj v | None => old end.

(** Lines 161-165.  [None] is the [AttributeError] of [.update] on a stored
    value that is truthy and not a dict. *)
Definition merge_external_metadata (stored : pyval)
    (update : option (list (string * pyval))) : option pyval :=
  match update with
  | None | Some [] => Some stored
  | Some u =>
      if truthy stored then
        match stored with
        | PDict d => Some (PDict (dict_update d u))
        | _ => None
        end
      else Some (PDict u)
  end.

(** Lines 149-168: the attributes of the row object at the commit (what
    the session writes of a JSON value changed in place is the ORM's matter
    and is not modelled).  [None] is an exception, which the handler answers
    with a rollback and status 500: [update_data] is missing, or the merge
    raised. *)
Definition apply_update (update_data : option SnapshotUpdateRequest.t) (now : Z)
    (s : Snapshot.t) : option Snapshot.t :=
  match update_data with
  | None => None
  | Some u =>
      match merge_external_metadata (Snapshot.external_metadata s)
              (SnapshotUpdateRequest.external_metadata u) with
      | None => None
      | Some external =>
          Some (Snapshot.mk
                  (Snapshot.chain s) (Snapshot.client s) (Snapshot.network s)
                  (Snapshot.type s) (Snapshot.snapshot_path s) (Snapshot.snapshot_id s)
                  (Snapshot.manifest_body_path s) (Snapshot.manifest_header_path s)
                  (Snapshot.total_size_bytes s) (Snapshot.total_chunks s)
                  (Snapshot.compression_type s)
                  (pick (SnapshotUpdateRequest.block_height u) PInt
                     (Snapshot.block_height s))
                  (pick (SnapshotUpdateRequest.has_blobs u) PBool (Snapshot.has_blobs s))
                  (pick (SnapshotUpdateRequest.blob_start_block u) PInt
                     (Snapshot.blob_start_block s))
                  (pick (SnapshotUpdateRequest.blob_end_block u) PInt
                     (Snapshot.blob_end_block s))
                  (Snapshot.snapshot_metadata s) external
                  (Snapshot.snapshot_created_at s) (Snapshot.indexed_at s) now
                  (Snapshot.is_active s)
                  (pick (SnapshotUpdateRequest.is_complete u) PBool
                     (Snapshot.is_complete s)))
      end
  end.

(** The table after the commit of a row at position [i]. *)
Fixpoint replace_nth {A} (i : nat) (x : A) (l : list A) : list A :=
  match l, i with
  | [], _ => []
  | _ :: r, O => x :: r
  | y :: r, S j => y :: replace_nth j x r
  end.

(** What a pass reads of a row: its path and the three metrics. *)
Definition scanner_view (r : Snapshot.t) : string * pyval * pyval * pyval :=
  (Snapshot.snapshot_path r, Snapshot.total_size_bytes r,
   Snapshot.total_chunks r, Snapshot.compression_type r).

(** ** API keys (app/db_models.py, class APIKey) *)

Module APIKey.
(** Every column but the surrogate key [id]. *)
Record t := mk {
  name : string;
  description : option string;
  api_key : string;
  key_hash : string;
  key_prefix : string;
  user_id : Z;
  scopes : list string;
  is_admin : bool;
  last_used_at : option Z;
  usage_count : Z;
  is_active : bool;
  expires_at : option Z;
  created_at : Z;
  created_by : option string;
  revoked_at : option Z;
  revoked_by : option string;
  rate_limit : option Z
}.

(** [api_key[:12] if len(api_key) > 12 else api_key] *)
Definition get_key_prefix (api_key : string) : string :=
  if (12 <? String.length api_key)%nat then substring 0 12 api_key else api_key.

(** [db_key.is_active = False] *)
Definition deactivated (k : t) : t :=
  mk (name k) (description k) (api_key k) (key_hash k) (key_prefix k) (user_id k)
     (scopes k) (is_admin k) (last_used_at k) (usage_count k) false (expires_at k)
     (created_at k) (created_by k) (revoked_at k) (revoked_by k) (rate_limit k).

(** [db_key.last_used_at = now; db_key.usage_count += 1] *)
Definition used (now : Z) (k : t) : t :=
  mk (name k) (description k) (api_key k) (key_hash k) (key_prefix k) (user_id k)
     (scopes k) (is_admin k) (Some now) (usage_count k + 1)%Z (is_active k) (expires_at k)
     (created_at k) (created_by k) (revoked_at k) (revoked_by k) (rate_limit k).
End APIKey.

(** ** validate_api_key, require_scope (app/auth_middleware.py) *)

Inductive HTTPException :=
| mkHTTPException (status_code : nat) (detail : string).

Definition matches_key (h : string) (k : APIKey.t) : bool :=
  String.eqb (APIKey.key_hash k) h && APIKey.is_active k.

(** [db.query(APIKey).filter(APIKey.key_hash == h, APIKey.is_active == True).first()] *)
Fixpoint find_key (h : string) (keys : list APIKey.t) : option APIKey.t :=
  match keys with
  | [] => None
  | k :: rest => if matches_key h k then Some k else find_key h rest
  end.

(** The commit of the attributes assigned to the row [find_key] gave. *)
Fixpoint commit_key (h : string) (k' : APIKey.t) (keys : list APIKey.t)
  : list APIKey.t :=
  match keys with
  | [] => []
  | k :: rest => if matches_key h k then k' :: rest else k :: commit_key h k' rest
  end.

(** Lines 15-56.  [hash_key] is [APIKey.hash_key], the SHA-256 digest in
    hexadecimal; [api_key] is the [X-API-Key] header, if any; the clock is
    read once for the expiry test of a key that has an expiry, and once
    for [last_used_at]. *)
Definition validate_api_key (hash_key : string -> string) (env : Env)
    (api_key : option string) (keys : list APIKey.t) (now : nat)
  : (HTTPException + APIKey.t) * list APIKey.t * nat :=
  match api_key with
  | None | Some EmptyString =>
      (inl (mkHTTPException 401 "API key is missing"), keys, now)
  | Some key =>
      let key_hash := hash_key key in
      match find_key key_hash keys with
      | None => (inl (mkHTTPException 401 "Invalid API key"), keys, now)
      | Some db_key =>
          let '(expired, now1) :=
            match APIKey.expires_at db_key with
            | Some expires_at => ((expires_at <? utcnow env now)%Z, S now)
            | None => (false, now)
            end in
          if expired then
            (inl (mkHTTPException 401 "API key has expired"),
             commit_key key_hash (APIKey.deactivated db_key) keys, now1)
          else
            let db_key' := APIKey.used (utcnow env now1) db_key in
            (inr db_key', commit_key key_hash db_key' keys, S now1)
      end
  end.

(** Lines 59-68: [check_scope] of [require_scope(scope)]. *)
Definition check_scope (scope : string) (api_key : APIKey.t)
  : HTTPException + APIKey.t :=
  if negb (mem_string scope (APIKey.scopes api_key))
     && negb (mem_string "admin" (APIKey.scopes api_key))
  then inl (mkHTTPException 403
              ("API key does not have required scope: " ++ scope))
  else inr api_key.

(** The dependency [require_scope(scope)]: [validate_api_key], then
    [check_scope] on the key it returned. *)
Definition require_scope (hash_key : string -> string) (env : Env) (scope : string)
    (api_key : option string) (keys : list APIKey.t) (now : nat)
  : (HTTPException + APIKey.t) * list APIKey.t * nat :=
  match validate_api_key hash_key env api_key keys now with
  | (inl e, keys', now') => (inl e, keys', now')
  | (inr k, keys', now') => (check_scope scope k, keys', now')
  end.

(** ** trigger_scan (app/routers/snapshots.py) *)

Record App := mkApp {
  api_keys : list APIKey.t;
  world : World
}.


(** ** Two API keys *)

Module DemoKeys.
(** A stand-in for the digest: any function serves. *)
Definition hash (s : string) : string := "h:" ++ s.

Definition reader : APIKey.t :=
  APIKey.mk "Web App" None "csnp_reader0000" (hash "csnp_reader0000") "csnp_reader0"
    1 ["snapshots:read"] false None 41 true None 1690000000 (Some "admin") None None None.

Definition writer : APIKey.t :=
  APIKey.mk "Metadata Updater" None "csnp_writer0000" (hash "csnp_writer0000")
    "csnp_writer0" 1 ["snapshots:read"; "snapshots:write"] false None 7 true
    (Some 1700000050%Z) 1690000000 (Some "admin") None None None.

Definition keys : list APIKey.t := [reader; writer].


(** The same table two hundred clock readings later, past the expiry of
    the second key. *)
Definition late_app : App := mkApp keys (mkWorld [] [] 200).
End DemoKeys.

(** ** create_api_key, revoke_api_key (app/routers/auth.py) *)

Module APIKeyCreate.
(** The request body of [create_api_key]. *)
Record t := mk {
  name : string;
  description : option string;
  scopes : list string;
  expires_in_days : option Z;
  rate_limit : option Z
}.
End APIKeyCreate.




(** Lines 294-298 of [revoke_api_key], on the row it found. *)
Definition revoked (now : Z) (admin_username : string) (k : APIKey.t) : APIKey.t :=
  APIKey.mk (APIKey.name k) (APIKey.description k) (APIKey.api_key k)
    (APIKey.key_hash k) (APIKey.key_prefix k) (APIKey.user_id k) (APIKey.scopes k)
    (APIKey.is_admin k) (APIKey.last_used_at k) (APIKey.usage_count k) false
    (APIKey.expires_at k) (APIKey.created_at k) (APIKey.created_by k)
    (Some now) (Some admin_username) (APIKey.rate_limit k).

(** * Properties *)

(** ** Python equality *)


Lemma all2_refl {A} (eq : A -> A -> bool) (l : list A) :
  Forall (fun x => eq x x = true) l -> all2 eq l l = true.
Proof.
  induction 1 as [|x r Hx _ IH]; simpl; [reflexivity|].
  rewrite Hx, IH. reflexivity.
Qed.

Lemma assoc_get_app_fresh {V} (pre x : list (string * V)) (k : string) :
  ~ In k (map fst pre) -> assoc_get (pre ++ x) k = assoc_get x k.
Proof.
  induction pre as [|[k' v'] pre IH]; simpl; intros Hk; [reflexivity|].
  destruct (String.eqb_spec k' k) as [->|Hne].
  - exfalso. apply Hk. left. reflexivity.
  - apply IH. intros Hin. apply Hk. right. exact Hin.
Qed.

Lemma mem_string_false (k : string) (l : list string) :
  mem_string k l = false -> ~ In k l.
Proof.
  unfold mem_string. intros H Hin.
  assert (Hex : existsb (String.eqb k) l = true).
  { apply existsb_exists. exists k. split; [exact Hin|apply String.eqb_refl]. }
  congruence.
Qed.

Lemma dict_sub_refl {V} (eq : V -> V -> bool) (x pre : list (string * V))
    (seen : list string) :
  (forall k, In k (map fst pre) -> In k seen) ->
  Forall (fun kv => eq (snd kv) (snd kv) = true) x ->
  dict_sub eq (pre ++ x) seen x = true.
Proof.
  revert pre seen.
  induction x as [|[k v] x IH]; intros pre seen Hseen Hall; simpl; [reflexivity|].
  inversion Hall as [|? ? Hv Hrest]; subst. simpl in Hv.
  apply andb_true_iff. split.
  - destruct (mem_string k seen) eqn:Hmem; [reflexivity|].
    rewrite assoc_get_app_fresh.
    + simpl. rewrite String.eqb_refl. exact Hv.
    + intros Hin. apply (mem_string_false _ _ Hmem). apply Hseen. exact Hin.
  - replace (pre ++ (k, v) :: x)%list with ((pre ++ [(k, v)]) ++ x)%list
      by (rewrite <- app_assoc; reflexivity).
    apply IH; [|exact Hrest].
    intros k' Hin. rewrite map_app in Hin. apply in_app_or in Hin.
    destruct Hin as [Hin|[<-|[]]]; [right; apply Hseen; exact Hin|left; reflexivity].
Qed.

Lemma has_key_in {V} (d : list (string * V)) (kv : string * V) :
  In kv d -> has_key d (fst kv) = true.
Proof.
  unfold has_key.
  induction d as [|[k' v'] d IH]; simpl; [contradiction|].
  intros [<-|Hin].
  - simpl. rewrite String.eqb_refl. reflexivity.
  - destruct (String.eqb k' (fst kv)); [reflexivity|apply IH; exact Hin].
Qed.

(** [x == x] holds for every value of the model. *)
Lemma py_eq_refl (v : pyval) : py_eq v v = true.
Proof.
  induction v as [| b | n | s | l IH | d IH] using pyval_nested_ind; simpl.
  - reflexivity.
  - apply Bool.eqb_reflx.
  - apply Z.eqb_refl.
  - apply String.eqb_refl.
  - apply all2_refl. exact IH.
  - apply andb_true_iff. split.
    + apply (dict_sub_refl py_eq d []); [intros k []|exact IH].
    + apply forallb_forall. intros kv Hin. apply has_key_in. exact Hin.
Qed.

Lemma py_ne_refl (v : pyval) : py_ne v v = false.
Proof. unfold py_ne. rewrite py_eq_refl. reflexivity. Qed.

Lemma py_ne_neq (a b : pyval) : py_ne a b = true -> a <> b.
Proof. intros H ->. rewrite py_ne_refl in H. discriminate. Qed.

(** ** The path parser *)

Section Indexing.
Context {A : Type}.

Lemma split_last_three (l : list A) :
  3 <= List.length l ->
  exists lead a b c, l = (lead ++ [a; b; c])%list.
Proof.
  intros Hlen.
  exists (firstn (List.length l - 3) l).
  pose proof (firstn_skipn (List.length l - 3) l) as Hsplit.
  assert (Hk : List.length (skipn (List.length l - 3) l) = 3)
    by (rewrite length_skipn; lia).
  destruct (skipn (List.length l - 3) l) as [|a [|b [|c [|d r]]]];
    simpl in Hk; try discriminate.
  exists a, b, c. symmetry. exact Hsplit.
Qed.

Lemma index_last (lead : list A) (a b c : A) :
  PyStr.index (lead ++ [a; b; c]) (-1) = Some c.
Proof.
  unfold PyStr.index. rewrite length_app. simpl List.length.
  destruct (0 <=? -1)%Z eqn:E; [discriminate|].
  destruct (0 <=? Z.of_nat (List.length lead + 3) + -1)%Z eqn:E'.
  - replace (Z.to_nat (Z.of_nat (List.length lead + 3) + -1))
      with (List.length lead + 2) by lia.
    rewrite nth_error_app2 by lia.
    replace (List.length lead + 2 - List.length lead) with 2 by lia.
    reflexivity.
  - apply Z.leb_gt in E'. lia.
Qed.

Lemma index_last_but_one (lead : list A) (a b c : A) :
  PyStr.index (lead ++ [a; b; c]) (-2) = Some b.
Proof.
  unfold PyStr.index. rewrite length_app. simpl List.length.
  destruct (0 <=? -2)%Z eqn:E; [discriminate|].
  destruct (0 <=? Z.of_nat (List.length lead + 3) + -2)%Z eqn:E'.
  - replace (Z.to_nat (Z.of_nat (List.length lead + 3) + -2))
      with (List.length lead + 1) by lia.
    rewrite nth_error_app2 by lia.
    replace (List.length lead + 1 - List.length lead) with 1 by lia.
    reflexivity.
  - apply Z.leb_gt in E'. lia.
Qed.

Lemma index_last_but_two (lead : list A) (a b c : A) :
  PyStr.index (lead ++ [a; b; c]) (-3) = Some a.
Proof.
  unfold PyStr.index. rewrite length_app. simpl List.length.
  destruct (0 <=? -3)%Z eqn:E; [discriminate|].
  destruct (0 <=? Z.of_nat (List.length lead + 3) + -3)%Z eqn:E'.
  - replace (Z.to_nat (Z.of_nat (List.length lead + 3) + -3))
      with (List.length lead + 0) by lia.
    rewrite nth_error_app2 by lia.
    replace (List.length lead + 0 - List.length lead) with 0 by lia.
    reflexivity.
  - apply Z.leb_gt in E'. lia.
Qed.

Lemma slice_to_neg_three (lead : list A) (a b c : A) :
  PyStr.slice_to_neg (lead ++ [a; b; c]) 3 = lead.
Proof.
  unfold PyStr.slice_to_neg. rewrite length_app. simpl List.length.
  replace (List.length lead + 3 - 3) with (List.length lead + 0) by lia.
  rewrite firstn_app_2. simpl. apply app_nil_r.
Qed.

(** A non-negative index below the length reads that element. *)
Lemma index_nonneg (l : list A) (i : nat) (d : A) :
  i < List.length l ->
  PyStr.index l (Z.of_nat i) = Some (nth i l d).
Proof.
  intros Hi. unfold PyStr.index.
  destruct (0 <=? Z.of_nat i)%Z eqn:E.
  - rewrite Nat2Z.id. apply nth_error_nth'. exact Hi.
  - apply Z.leb_gt in E. lia.
Qed.
End Indexing.

Lemma split_nonempty (c : ascii) (s : string) : PyStr.split c s <> [].
Proof.
  induction s as [|a r IH]; simpl; [discriminate|].
  destruct (Ascii.eqb a c); [discriminate|].
  destruct (PyStr.split c r); [contradiction|discriminate].
Qed.

(** [parts[i] if len(parts) > i else d] is [nth i parts d]. *)
Lemma index_if_nth (parts : list string) (i : nat) (d : string) :
  index_if (i <? List.length parts)%nat parts (Z.of_nat i) d = Some (nth i parts d).
Proof.
  unfold index_if. destruct (i <? List.length parts)%nat eqn:E.
  - apply Nat.ltb_lt in E. apply index_nonneg. exact E.
  - apply Nat.ltb_ge in E. rewrite nth_overflow by exact E. reflexivity.
Qed.

(** *** What [clean_path] removes *)

Lemma append_assoc (a b c : string) : (a ++ b) ++ c = a ++ (b ++ c).
Proof. induction a as [|x a IH]; simpl; [reflexivity|]. rewrite IH. reflexivity. Qed.

Lemma append_nil_r (a : string) : a ++ "" = a.
Proof. induction a as [|x a IH]; simpl; [reflexivity|]. rewrite IH. reflexivity. Qed.

Lemma contains_app (c : ascii) (a b : string) :
  contains c (a ++ b) = contains c a || contains c b.
Proof.
  induction a as [|x a IH]; simpl; [reflexivity|].
  rewrite IH. apply orb_assoc.
Qed.

(** A tail that does not strip to nothing protects what is before it. *)
Lemma rstrip_app_keep (c : ascii) (s t : string) :
  PyStr.rstrip c t <> "" -> PyStr.rstrip c (s ++ t) = s ++ PyStr.rstrip c t.
Proof.
  intros Ht. induction s as [|a s IH]; simpl; [reflexivity|].
  rewrite IH. destruct (s ++ PyStr.rstrip c t) eqn:E; [|reflexivity].
  destruct s; simpl in E; [contradiction|discriminate].
Qed.

(** A string without [c], followed by a run of [c], strips to itself. *)
Lemma rstrip_free (c : ascii) (x t : string) :
  contains c x = false -> PyStr.rstrip c t = "" -> PyStr.rstrip c (x ++ t) = x.
Proof.
  intros Hx Ht. induction x as [|a x IH]; simpl; [exact Ht|].
  simpl in Hx. apply orb_false_iff in Hx as [Ha Hx].
  rewrite (IH Hx). destruct x; [rewrite Ha|]; reflexivity.
Qed.

Lemma digit_is_not (c : ascii) (a : ascii) :
  PyStr.is_digit c = false -> PyStr.is_digit a = true -> Ascii.eqb a c = false.
Proof.
  intros Hc Ha. destruct (Ascii.eqb_spec a c) as [->|]; [congruence|reflexivity].
Qed.

Lemma all_digits_free (c : ascii) (ds : string) :
  PyStr.is_digit c = false -> all_digits ds = true -> contains c ds = false.
Proof.
  intros Hc. induction ds as [|a ds IH]; simpl; [reflexivity|].
  intros H. apply andb_true_iff in H as [Ha Hds].
  rewrite (digit_is_not c a Hc Ha), (IH Hds). reflexivity.
Qed.

Lemma digits_then_end_all (ds : string) :
  all_digits ds = true -> ds <> "" -> PyStr.digits_then_end ds = Some "".
Proof.
  induction ds as [|a r IH]; [contradiction|].
  intros Hall _. simpl in Hall. apply andb_true_iff in Hall as [Ha Hr].
  cbn [PyStr.digits_then_end]. rewrite Ha.
  destruct r as [|b r']; [reflexivity|].
  assert (Hrest : PyStr.digits_then_end (String b r') = Some "")
    by (apply IH; [exact Hr|discriminate]).
  destruct r' as [|b' r'']; [|exact Hrest].
  simpl in Hr. apply andb_true_iff in Hr as [Hb _].
  rewrite (digit_is_not PyStr.newline b eq_refl Hb). exact Hrest.
Qed.

(** Digits followed by a dash are not at the end of the string. *)
Lemma digits_then_end_dash (x t : string) :
  PyStr.digits_then_end (x ++ String "-" t) = None.
Proof.
  induction x as [|a x IH]; [reflexivity|].
  cbn [append PyStr.digits_then_end].
  destruct (PyStr.is_digit a); [|reflexivity].
  destruct x as [|b x'].
  - simpl. destruct t; reflexivity.
  - cbn [append] in *. destruct x' as [|b' x'']; cbn [append] in *; exact IH.
Qed.

Lemma re_sub_version_unfold (s : string) :
  PyStr.re_sub_version s
  = match PyStr.match_version_suffix s with
    | Some rest => rest
    | None =>
        match s with
        | EmptyString => EmptyString
        | String a r => String a (PyStr.re_sub_version r)
        end
    end.
Proof. destruct s; reflexivity. Qed.

Lemma no_match_before_suffix (a : ascii) (base t : string) :
  PyStr.match_version_suffix (String a (base ++ String "-" t)) = None.
Proof.
  destruct base as [|b r]; simpl.
  - destruct (Ascii.eqb a "-"); reflexivity.
  - destruct (Ascii.eqb a "-" && Ascii.eqb b "v"); [|reflexivity].
    apply digits_then_end_dash.
Qed.

Lemma re_sub_version_suffix (base ds : string) :
  all_digits ds = true -> ds <> "" ->
  PyStr.re_sub_version (base ++ "-v" ++ ds) = base.
Proof.
  intros Hall Hne. induction base as [|a base IH].
  - rewrite re_sub_version_unfold. simpl.
    rewrite (digits_then_end_all ds Hall Hne). reflexivity.
  - rewrite re_sub_version_unfold.
    cbn [append].
    rewrite (no_match_before_suffix a base (String "v" ds)).
    f_equal. exact IH.
Qed.

(** In the words of the specification: a name that ends with [-v], one or
    more digits and any number of ['/'] is cleaned to what is before the
    [-v]. *)
Lemma clean_path_versioned (base ds slashes : string) :
  all_digits ds = true -> ds <> "" -> PyStr.rstrip "/" slashes = "" ->
  clean_path (base ++ "-v" ++ ds ++ slashes) = base.
Proof.
  intros Hall Hne Hsl. unfold clean_path.
  assert (Hds : PyStr.rstrip "/" (ds ++ slashes) = ds).
  { apply rstrip_free; [|exact Hsl]. apply all_digits_free; [reflexivity|exact Hall]. }
  replace (base ++ "-v" ++ ds ++ slashes) with ((base ++ "-v") ++ (ds ++ slashes))
    by apply append_assoc.
  rewrite rstrip_app_keep by (rewrite Hds; exact Hne).
  rewrite Hds, append_assoc. apply re_sub_version_suffix; assumption.
Qed.

(** [$] also matches before a newline that ends the name. *)
Example clean_path_before_newline :
  clean_path ("a-b-c-d-v1" ++ String PyStr.newline "")
  = "a-b-c-d" ++ String PyStr.newline "".
Proof. reflexivity. Qed.

Lemma parse_at_least_four (protocol_dir : string) :
  4 <= List.length (path_parts protocol_dir) ->
  exists (lead : list string) (client network type : string),
    lead <> []
    /\ path_parts protocol_dir = (lead ++ [client; network; type])%list
    /\ parse_snapshot_path protocol_dir
       = Some (mkParsed (PyStr.join "-" lead) client network type).
Proof.
  intros Hlen.
  destruct (split_last_three (path_parts protocol_dir)) as (lead & c & n & t & Hparts);
    [lia|].
  exists lead, c, n, t.
  split.
  { intros ->. rewrite Hparts in Hlen. simpl in Hlen. lia. }
  split; [exact Hparts|].
  unfold parse_snapshot_path.
  apply Nat.leb_le in Hlen. rewrite Hlen. rewrite Hparts.
  rewrite index_last, index_last_but_one, index_last_but_two, slice_to_neg_three.
  reflexivity.
Qed.

Lemma parse_fewer_than_four (protocol_dir : string) :
  List.length (path_parts protocol_dir) < 4 ->
  parse_snapshot_path protocol_dir
  = Some (mkParsed (nth 0 (path_parts protocol_dir) "unknown")
                   (nth 1 (path_parts protocol_dir) "unknown")
                   (nth 2 (path_parts protocol_dir) "mainnet")
                   "archive").
Proof.
  intros Hlen.
  unfold parse_snapshot_path.
  apply Nat.leb_gt in Hlen as Hlt. rewrite Hlt.
  assert (Hne : path_parts protocol_dir <> []) by apply split_nonempty.
  assert (H0 : negb (List.length (path_parts protocol_dir) =? 0)%nat
               = (0 <? List.length (path_parts protocol_dir))%nat).
  { destruct (path_parts protocol_dir); [contradiction|reflexivity]. }
  rewrite H0.
  rewrite (index_if_nth _ 0), (index_if_nth _ 1), (index_if_nth _ 2).
  simpl bind.
  assert (H3 : (3 <? List.length (path_parts protocol_dir))%nat = false)
    by (apply Nat.ltb_ge; lia).
  rewrite H3. reflexivity.
Qed.

(** The parser is total: no index it takes is out of range. *)
Lemma parse_snapshot_path_total (protocol_dir : string) :
  exists info, parse_snapshot_path protocol_dir = Some info.
Proof.
  destruct (Nat.le_gt_cases 4 (List.length (path_parts protocol_dir))) as [H|H].
  - destruct (parse_at_least_four _ H) as (lead & c & n & t & _ & _ & Hp).
    eexists. exact Hp.
  - eexists. apply parse_fewer_than_four. exact H.
Qed.





(** ** Rows and their natural key *)

Lemma query_first_path (p : string) (rows : list Snapshot.t) (r : Snapshot.t) :
  query_first p rows = Some r -> Snapshot.snapshot_path r = p.
Proof.
  induction rows as [|x rows IH]; simpl; [discriminate|].
  destruct (String.eqb_spec (Snapshot.snapshot_path x) p) as [E|E].
  - intros [= <-]. exact E.
  - exact IH.
Qed.

Lemma query_first_commit_same (p : string) (rows : list Snapshot.t) (r r' : Snapshot.t) :
  query_first p rows = Some r ->
  Snapshot.snapshot_path r' = p ->
  query_first p (commit_row p r' rows) = Some r'.
Proof.
  intros Hq Hp.
  induction rows as [|x rows IH]; simpl in *; [discriminate|].
  destruct (String.eqb_spec (Snapshot.snapshot_path x) p) as [E|E]; simpl.
  - rewrite Hp, String.eqb_refl. reflexivity.
  - destruct (String.eqb_spec (Snapshot.snapshot_path x) p); [contradiction|].
    apply IH. exact Hq.
Qed.




Lemma commit_row_same (p : string) (rows : list Snapshot.t) (r : Snapshot.t) :
  query_first p rows = Some r -> commit_row p r rows = rows.
Proof.
  induction rows as [|x rows IH]; simpl; [reflexivity|].
  destruct (String.eqb (Snapshot.snapshot_path x) p).
  - intros [= ->]. reflexivity.
  - intros H. rewrite IH by exact H. reflexivity.
Qed.

Lemma commit_row_length (p : string) (r' : Snapshot.t) (rows : list Snapshot.t) :
  List.length (commit_row p r' rows) = List.length rows.
Proof.
  induction rows as [|x rows IH]; simpl; [reflexivity|].
  destruct (String.eqb (Snapshot.snapshot_path x) p); simpl; congruence.
Qed.

(** A commit touches one row at most: the one [query_first] finds. *)
Lemma commit_row_nth (p : string) (r r' : Snapshot.t) (rows : list Snapshot.t)
    (i : nat) (x : Snapshot.t) :
  query_first p rows = Some r ->
  nth_error rows i = Some x ->
  nth_error (commit_row p r' rows) i = Some x
  \/ (x = r /\ nth_error (commit_row p r' rows) i = Some r').
Proof.
  revert i.
  induction rows as [|y rows IH]; intros i Hq Hi; simpl in *; [discriminate|].
  destruct (String.eqb (Snapshot.snapshot_path y) p).
  - injection Hq as ->. destruct i as [|i]; simpl in *.
    + right. injection Hi as ->. split; reflexivity.
    + left. exact Hi.
  - destruct i as [|i]; simpl in *; [left; exact Hi|].
    apply IH; assumption.
Qed.


(** ** One version directory *)

Lemma index_last_nonempty {A} (l : list A) :
  l <> [] -> exists x, PyStr.index l (-1) = Some x.
Proof.
  intros Hne.
  destruct (exists_last Hne) as (lead & x & ->).
  exists x. unfold PyStr.index.
  destruct (0 <=? -1)%Z eqn:E; [discriminate|].
  rewrite length_app. simpl List.length.
  destruct (0 <=? Z.of_nat (List.length lead + 1) + -1)%Z eqn:E'.
  - replace (Z.to_nat (Z.of_nat (List.length lead + 1) + -1))
      with (List.length lead + 0) by lia.
    rewrite nth_error_app2 by lia.
    replace (List.length lead + 0 - List.length lead) with 0 by lia.
    reflexivity.
  - apply Z.leb_gt in E'. lia.
Qed.

(** When the body manifest is there, neither index of lines 300-304 is out
    of range, and the directory goes to the update or the create path. *)
Lemma process_present (env : Env) (s3 : ObjectStore) (protocol_dir version_dir : string)
    (st : ScanState) :
  head_object s3 (version_dir ++ "manifest-body.json") = None ->
  exists snapshot_id parsed_info,
    parse_snapshot_path protocol_dir = Some parsed_info
    /\ process_version_dir env s3 protocol_dir version_dir st
       = found_one
           match query_first (natural_key version_dir) (db st) with
           | Some existing =>
               update_existing env
                 (read_header s3 (version_dir ++ "manifest-header.json")) existing st
           | None =>
               create_new env
                 (new_snapshot env (ticks st) parsed_info version_dir snapshot_id
                    (version_dir ++ "manifest-body.json")
                    (version_dir ++ "manifest-header.json")
                    (read_header s3 (version_dir ++ "manifest-header.json"))) st
           end.
Proof.
  intros Hhead.
  destruct (index_last_nonempty
              (PyStr.split "/"%char (PyStr.rstrip "/"%char version_dir))
              (split_nonempty _ _)) as [snapshot_id Hid].
  destruct (parse_snapshot_path_total protocol_dir) as [info Hinfo].
  exists snapshot_id, info. split; [exact Hinfo|].
  unfold process_version_dir. rewrite Hhead, Hid, Hinfo. reflexivity.
Qed.

Lemma refresh_fields_updated (h : HeaderInfo) (r : Snapshot.t) :
  snd (refresh_fields h r) = needs_update h r.
Proof.
  unfold refresh_fields, needs_update, field_differs.
  destruct (truthy (total_size h) && py_ne (Snapshot.total_size_bytes r) (total_size h));
    simpl;
    destruct (truthy (total_chunks h) && py_ne (Snapshot.total_chunks r) (total_chunks h));
    simpl;
    destruct (truthy (compression_type h)
              && py_ne (Snapshot.compression_type r) (compression_type h));
    reflexivity.
Qed.

Lemma refresh_fields_values (h : HeaderInfo) (r : Snapshot.t) :
  let r' := fst (refresh_fields h r) in
  Snapshot.total_size_bytes r'
  = (if field_differs (total_size h) (Snapshot.total_size_bytes r)
     then total_size h else Snapshot.total_size_bytes r)
  /\ Snapshot.total_chunks r'
     = (if field_differs (total_chunks h) (Snapshot.total_chunks r)
        then total_chunks h else Snapshot.total_chunks r)
  /\ Snapshot.compression_type r'
     = (if field_differs (compression_type h) (Snapshot.compression_type r)
        then compression_type h else Snapshot.compression_type r)
  /\ Snapshot.snapshot_metadata r' = Snapshot.snapshot_metadata r
  /\ Snapshot.last_updated_at r' = Snapshot.last_updated_at r
  /\ same_frame r r'.
Proof.
  unfold refresh_fields, field_differs, same_frame.
  destruct (truthy (total_size h) && py_ne (Snapshot.total_size_bytes r) (total_size h));
    simpl;
    destruct (truthy (total_chunks h) && py_ne (Snapshot.total_chunks r) (total_chunks h));
    simpl;
    destruct (truthy (compression_type h)
              && py_ne (Snapshot.compression_type r) (compression_type h));
    simpl; repeat split; reflexivity.
Qed.

Lemma refresh_fields_unchanged (h : HeaderInfo) (r : Snapshot.t) :
  needs_update h r = false -> refresh_fields h r = (r, false).
Proof.
  unfold refresh_fields, needs_update, field_differs.
  destruct (truthy (total_size h) && py_ne (Snapshot.total_size_bytes r) (total_size h));
    simpl; [discriminate|].
  destruct (truthy (total_chunks h) && py_ne (Snapshot.total_chunks r) (total_chunks h));
    simpl; [discriminate|].
  destruct (truthy (compression_type h)
            && py_ne (Snapshot.compression_type r) (compression_type h));
    simpl; [discriminate|reflexivity].
Qed.

Lemma update_existing_unchanged (env : Env) (h : HeaderInfo) (r : Snapshot.t)
    (st : ScanState) :
  needs_update h r = false -> update_existing env h r st = st.
Proof.
  intros H. unfold update_existing. rewrite (refresh_fields_unchanged _ _ H). reflexivity.
Qed.

Lemma update_existing_changed (env : Env) (h : HeaderInfo) (r : Snapshot.t)
    (st : ScanState) :
  needs_update h r = true ->
  update_existing env h r st
  = mkScan (commit_row (Snapshot.snapshot_path r) (refreshed_row env h r (ticks st)) (db st))
      (S (ticks st)) (snapshots_found st) (new_snapshots st)
      (S (updated_snapshots st)) (errors st) (prefixes_scanned st).
Proof.
  intros H. unfold update_existing, refreshed_row.
  pose proof (refresh_fields_updated h r) as Hu. rewrite H in Hu.
  destruct (refresh_fields h r) as [s u]. simpl in Hu. subst u. reflexivity.
Qed.

Lemma refreshed_row_values (env : Env) (h : HeaderInfo) (r : Snapshot.t) (now : nat) :
  let r' := refreshed_row env h r now in
  Snapshot.total_size_bytes r'
  = (if field_differs (total_size h) (Snapshot.total_size_bytes r)
     then total_size h else Snapshot.total_size_bytes r)
  /\ Snapshot.total_chunks r'
     = (if field_differs (total_chunks h) (Snapshot.total_chunks r)
        then total_chunks h else Snapshot.total_chunks r)
  /\ Snapshot.compression_type r'
     = (if field_differs (compression_type h) (Snapshot.compression_type r)
        then compression_type h else Snapshot.compression_type r)
  /\ Snapshot.last_updated_at r' = utcnow env now
  /\ same_frame r r'.
Proof.
  destruct (refresh_fields_values h r) as (Hs & Hc & Hk & _ & _ & Hf).
  unfold refreshed_row, same_frame in *.
  destruct (truthy (header_data h)); simpl; repeat split; tauto.
Qed.

Lemma same_frame_refl (r : Snapshot.t) : same_frame r r.
Proof. unfold same_frame. repeat split; reflexivity. Qed.





(** What the handler of lines 381-384 does: a [NoSuchKey] from the check
    of the body manifest leaves the whole state as it was, and the loop
    over the page goes on as if the directory were not listed. *)
Lemma no_such_key_is_skipped (env : Env) (s3 : ObjectStore)
    (protocol_dir version_dir msg : string) (st : ScanState) :
  head_object s3 (version_dir ++ "manifest-body.json") = Some (NoSuchKey msg) ->
  process_version_dir env s3 protocol_dir version_dir st = st
  /\ forall before after : list prefix_obj,
      scan_version_page env s3 protocol_dir
        (Some (before ++ Some version_dir :: after)%list) st
      = scan_version_page env s3 protocol_dir (Some (before ++ after)%list) st.
Proof.
  intros Hhead.
  assert (Hskip : forall st0, process_version_dir env s3 protocol_dir version_dir st0 = st0).
  { intros st0. unfold process_version_dir. rewrite Hhead. reflexivity. }
  split; [apply Hskip|].
  intros before after. unfold scan_version_page.
  rewrite !fold_left_app. simpl.
  destruct (String.eqb version_dir ""); [reflexivity|].
  rewrite Hskip. reflexivity.
Qed.


(** C4, at [ethereum-reth-mainnet-archive-v1/tmp/], which has no body
    manifest.  [head_object] answers with the 404 [ClientError], which is
    not a [NoSuchKey]: no row is created or updated, and the directory is
    appended to the errors of the run. *)
Theorem missing_body_is_reported :
  let st := Demo.state0 [Demo.arb1_row] in
  let st' := process_version_dir Demo.env Demo.store Demo.eth (Demo.eth ++ "tmp/") st in
  head_object Demo.store (Demo.eth ++ "tmp/manifest-body.json")
  = Some Demo.head_not_found
  /\ db st' = db st
  /\ new_snapshots st' = 0
  /\ updated_snapshots st' = 0
  /\ errors st'
     = ["Error processing ethereum-reth-mainnet-archive-v1/tmp/: An error occurred (404) when calling the HeadObject operation: Not Found"].
Proof.
  repeat split; reflexivity.
Qed.

Lemma read_header_raised (s3 : ObjectStore) (key : string) (e : exn) :
  get_json s3 key = Raised e ->
  read_header s3 key = mkHeader PNone PNone PNone PNone.
Proof. intros H. unfold read_header. rewrite H. reflexivity. Qed.

(** C5. A version directory seen for the first time, whose body manifest
    is there and whose header manifest cannot be fetched or parsed, gets a
    row with null [total_size_bytes], [total_chunks] and
    [compression_type]; the errors of the run are as before. *)
Theorem unreadable_header_still_cataloged :
  forall (env : Env) (s3 : ObjectStore) (protocol_dir version_dir : string)
         (st : ScanState) (e : exn),
    head_object s3 (version_dir ++ "manifest-body.json") = None ->
    query_first (natural_key version_dir) (db st) = None ->
    get_json s3 (version_dir ++ "manifest-header.json") = Raised e ->
    let st' := process_version_dir env s3 protocol_dir version_dir st in
    exists r,
      db st' = (db st ++ [r])%list
      /\ Snapshot.snapshot_path r = natural_key version_dir
      /\ Snapshot.total_size_bytes r = PNone
      /\ Snapshot.total_chunks r = PNone
      /\ Snapshot.compression_type r = PNone
      /\ new_snapshots st' = S (new_snapshots st)
      /\ snapshots_found st' = S (snapshots_found st)
      /\ errors st' = errors st.
Proof.
  intros env s3 protocol_dir version_dir st e Hhead Hq Hraised st'.
  destruct (process_present env s3 protocol_dir version_dir st Hhead)
    as (snapshot_id & info & _ & Hstep).
  rewrite Hq, (read_header_raised _ _ _ Hraised) in Hstep.
  subst st'. rewrite Hstep. simpl.
  eexists. split; [reflexivity|]. simpl. repeat split; reflexivity.
Qed.

Lemma unreadable_header_still_cataloged_witness :
  exists r,
    db (process_version_dir Demo.env Demo.store Demo.eth (Demo.eth ++ "2/")
          (Demo.state0 [])) = [r]
    /\ Snapshot.snapshot_path r = "ethereum-reth-mainnet-archive-v1/2"
    /\ Snapshot.total_size_bytes r = PNone
    /\ Snapshot.total_chunks r = PNone
    /\ Snapshot.compression_type r = PNone.
Proof.
  destruct (unreadable_header_still_cataloged Demo.env Demo.store Demo.eth
              (Demo.eth ++ "2/") (Demo.state0 [])
              (OtherException "Expecting value: line 1 column 1 (char 0)")
              eq_refl eq_refl eq_refl)
    as (r & Hdb & Hp & Hs & Hc & Hk & _).
  exists r. repeat split; assumption.
Defined.

(** C8. Reconciling a version directory whose row exists keeps the number
    of rows, and every row keeps its chain, client, network, type,
    snapshot_path, snapshot_id, manifest paths, indexed_at, is_active,
    external_metadata and the other externally-owned columns: only
    total_size_bytes, total_chunks, compression_type, snapshot_metadata and
    last_updated_at can differ afterwards. *)
Theorem existing_row_frame :
  forall (env : Env) (s3 : ObjectStore) (protocol_dir version_dir : string)
         (st : ScanState) (existing : Snapshot.t),
    query_first (natural_key version_dir) (db st) = Some existing ->
    let st' := process_version_dir env s3 protocol_dir version_dir st in
    List.length (db st') = List.length (db st)
    /\ (exists r', query_first (natural_key version_dir) (db st') = Some r'
                   /\ same_frame existing r')
    /\ forall (i : nat) (r : Snapshot.t),
        nth_error (db st) i = Some r ->
        exists r', nth_error (db st') i = Some r' /\ same_frame r r'.
Proof.
  intros env s3 protocol_dir version_dir st existing Hq st'.
  assert (Hsame : db st' = db st ->
            List.length (db st') = List.length (db st)
            /\ (exists r', query_first (natural_key version_dir) (db st') = Some r'
                           /\ same_frame existing r')
            /\ forall (i : nat) (r : Snapshot.t),
                nth_error (db st) i = Some r ->
                exists r', nth_error (db st') i = Some r' /\ same_frame r r').
  { intros ->. split; [reflexivity|]. split.
    - exists existing. split; [exact Hq|apply same_frame_refl].
    - intros i r Hi. exists r. split; [exact Hi|apply same_frame_refl]. }
  destruct (head_object s3 (version_dir ++ "manifest-body.json")) as [e|] eqn:Hhead.
  { apply Hsame. subst st'. unfold process_version_dir. rewrite Hhead.
    destruct e; reflexivity. }
  destruct (process_present env s3 protocol_dir version_dir st Hhead)
    as (snapshot_id & info & _ & Hstep).
  rewrite Hq in Hstep.
  set (h := read_header s3 (version_dir ++ "manifest-header.json")) in *.
  pose proof (query_first_path _ _ _ Hq) as Hpath.
  destruct (needs_update h existing) eqn:Hneed.
  - rewrite (update_existing_changed env h existing st Hneed) in Hstep.
    destruct (refreshed_row_values env h existing (ticks st))
      as (_ & _ & _ & _ & Hf).
    subst st'. rewrite Hstep. simpl. rewrite Hpath.
    split; [apply commit_row_length|]. split.
    + exists (refreshed_row env h existing (ticks st)). split; [|exact Hf].
      apply (query_first_commit_same _ _ existing); [exact Hq|].
      destruct Hf as (_ & _ & _ & _ & Hp & _). rewrite Hp. exact Hpath.
    + intros i r Hi.
      destruct (commit_row_nth _ existing (refreshed_row env h existing (ticks st))
                  _ i r Hq Hi) as [Hkeep|[-> Hnew]].
      * exists r. split; [exact Hkeep|apply same_frame_refl].
      * exists (refreshed_row env h existing (ticks st)). split; [exact Hnew|exact Hf].
  - apply Hsame. subst st'. rewrite Hstep.
    rewrite (update_existing_unchanged env h existing st Hneed). reflexivity.
Qed.

Lemma existing_row_frame_witness :
  exists r',
    query_first "arbitrum-one-nitro-mainnet-full-v1/1"
      (db (process_version_dir Demo.env Demo.store Demo.arb (Demo.arb ++ "1/")
             (Demo.state0 [Demo.arb1_row]))) = Some r'
    /\ same_frame Demo.arb1_row r'.
Proof.
  exact (proj1 (proj2 (existing_row_frame Demo.env Demo.store Demo.arb
                         (Demo.arb ++ "1/") (Demo.state0 [Demo.arb1_row])
                         Demo.arb1_row eq_refl))).
Defined.

(** ** What the header manifest yields *)









(** ** The traversal as a sequence of steps *)

Lemma run_events_app (env : Env) (s3 : ObjectStore) (a b : list event) (st : ScanState) :
  run_events env s3 (a ++ b) st = run_events env s3 b (run_events env s3 a st).
Proof. unfold run_events. apply fold_left_app. Qed.

Lemma scan_version_page_events (env : Env) (s3 : ObjectStore) (protocol_dir : string)
    (version_page : page) (st : ScanState) :
  scan_version_page env s3 protocol_dir version_page st
  = run_events env s3 (page_events protocol_dir version_page) st.
Proof.
  destruct version_page as [common_prefixes|]; [|reflexivity].
  unfold scan_version_page, page_events. revert st.
  induction common_prefixes as [|vp rest IH]; intros st; [reflexivity|].
  simpl. rewrite run_events_app, IH.
  destruct (String.eqb match vp with Some p => p | None => "" end ""); reflexivity.
Qed.

Lemma scan_protocol_dir_events (env : Env) (s3 : ObjectStore) (protocol_dir : string)
    (st : ScanState) :
  scan_protocol_dir env s3 protocol_dir st
  = (run_events env s3 (protocol_dir_events s3 protocol_dir) st,
     raises (list_prefix s3 protocol_dir)).
Proof.
  unfold scan_protocol_dir, protocol_dir_events. f_equal.
  simpl run_events at 1.
  generalize (append_prefix (PyStr.rstrip "/"%char protocol_dir) st).
  induction (pages (list_prefix s3 protocol_dir)) as [|pg rest IH]; intros st0;
    [reflexivity|].
  simpl. rewrite run_events_app, IH, scan_version_page_events. reflexivity.
Qed.

Lemma scan_protocol_prefixes_events (env : Env) (s3 : ObjectStore)
    (common_prefixes : list prefix_obj) (st : ScanState) :
  scan_protocol_prefixes env s3 common_prefixes st
  = (run_events env s3 (fst (protocol_prefixes_events s3 common_prefixes)) st,
     snd (protocol_prefixes_events s3 common_prefixes)).
Proof.
  revert st.
  induction common_prefixes as [|po rest IH]; intros st; [reflexivity|].
  cbn [scan_protocol_prefixes protocol_prefixes_events].
  destruct (String.eqb match po with Some p => p | None => "" end ""); [apply IH|].
  rewrite scan_protocol_dir_events.
  destruct (raises (list_prefix s3 match po with Some p => p | None => "" end));
    [reflexivity|].
  rewrite IH.
  destruct (protocol_prefixes_events s3 rest) as [evs r]. simpl.
  rewrite run_events_app. reflexivity.
Qed.

Lemma scan_root_pages_events (env : Env) (s3 : ObjectStore) (root_pages : list page)
    (st : ScanState) :
  scan_root_pages env s3 root_pages st
  = (run_events env s3 (fst (root_pages_events s3 root_pages)) st,
     snd (root_pages_events s3 root_pages)).
Proof.
  revert st.
  induction root_pages as [|[common_prefixes|] rest IH]; intros st;
    [reflexivity| |apply IH].
  cbn [scan_root_pages root_pages_events]. rewrite scan_protocol_prefixes_events.
  destruct (protocol_prefixes_events s3 common_prefixes) as [evs [e|]]; simpl;
    [reflexivity|].
  rewrite IH.
  destruct (root_pages_events s3 rest) as [evs' r]. simpl.
  rewrite run_events_app. reflexivity.
Qed.

(** A pass runs the steps of [bucket_events], and raises what it raises. *)
Lemma scan_bucket_events (env : Env) (s3 : ObjectStore) (st : ScanState) :
  scan_bucket env s3 st
  = (run_events env s3 (fst (bucket_events s3)) st, snd (bucket_events s3)).
Proof.
  unfold scan_bucket, bucket_events. rewrite scan_root_pages_events.
  destruct (root_pages_events s3 (pages (list_root s3))) as [evs [e|]]; reflexivity.
Qed.

(** ** The run record *)




(** ** Errors of a pass *)







(** ** Two passes in a row *)













(** *** Natural keys under a ['/'] delimiter *)

Lemma split_at_first (c : ascii) (y1 y2 r1 r2 : string) :
  contains c y1 = false -> contains c y2 = false ->
  y1 ++ String c r1 = y2 ++ String c r2 -> y1 = y2 /\ r1 = r2.
Proof.
  revert y2. induction y1 as [|a y1 IH]; intros y2 H1 H2 Heq.
  - destruct y2 as [|b y2]; simpl in *.
    + injection Heq as ->. split; reflexivity.
    + injection Heq as <- _. rewrite Ascii.eqb_refl in H2. discriminate.
  - destruct y2 as [|b y2]; simpl in *.
    + injection Heq as -> _. rewrite Ascii.eqb_refl in H1. discriminate.
    + injection Heq as -> Heq.
      apply orb_false_iff in H1 as [_ H1]. apply orb_false_iff in H2 as [_ H2].
      destruct (IH y2 H1 H2 Heq) as [-> ->]. split; reflexivity.
Qed.

(** The natural key of [y/x/]: [y/x], or [y] when [x] is empty. *)
Lemma natural_key_delimited (y x : string) :
  contains "/" y = false -> contains "/" x = false ->
  natural_key ((("" ++ y ++ "/") ++ x ++ "/"))
  = if String.eqb x "" then y else y ++ "/" ++ x.
Proof.
  intros Hy Hx. unfold natural_key. cbn [append].
  destruct (String.eqb_spec x "") as [->|Hne].
  - cbn [append]. rewrite append_assoc. apply rstrip_free; [exact Hy|reflexivity].
  - assert (Hs : PyStr.rstrip "/" (x ++ "/") = x)
      by (apply rstrip_free; [exact Hx|reflexivity]).
    rewrite rstrip_app_keep by (rewrite Hs; exact Hne).
    rewrite Hs. apply append_assoc.
Qed.

Lemma visited_in (evs : list event) (v : string) :
  In v (visited evs) -> exists protocol_dir, In (Visit protocol_dir v) evs.
Proof.
  unfold visited. intros Hin. apply in_flat_map in Hin as (ev & Hev & Hin).
  destruct ev as [pd|pd w]; simpl in Hin; [contradiction|].
  destruct Hin as [<-|[]]. exists pd. exact Hev.
Qed.

(** Under a ['/'] delimiter no two version directories share a natural
    key. *)
Lemma delimited_keys_unambiguous (evs : list event) :
  delimited_listing evs -> keys_unambiguous (visited evs).
Proof.
  intros Hshape v w Hv Hw Hkey.
  apply visited_in in Hv as (pd1 & Hv). apply visited_in in Hw as (pd2 & Hw).
  destruct (Hshape _ _ Hv) as ((y1 & Hy1 & ->) & (x1 & Hx1 & ->)).
  destruct (Hshape _ _ Hw) as ((y2 & Hy2 & ->) & (x2 & Hx2 & ->)).
  rewrite !natural_key_delimited in Hkey by assumption.
  destruct (String.eqb x1 "") eqn:E1; destruct (String.eqb x2 "") eqn:E2;
    try apply String.eqb_eq in E1; try apply String.eqb_eq in E2; subst.
  - reflexivity.
  - exfalso. rewrite contains_app in Hy1. simpl in Hy1.
    apply orb_false_iff in Hy1 as [_ Hy1]. discriminate.
  - exfalso. rewrite contains_app in Hy2. simpl in Hy2.
    apply orb_false_iff in Hy2 as [_ Hy2]. discriminate.
  - destruct (split_at_first "/" y1 y2 x1 x2 Hy1 Hy2 Hkey) as [-> ->]. reflexivity.
Qed.



(** * Further properties *)

(** ** The parser: tokens and reassembly *)

Lemma join_cons (sep x : string) (h : string) (t : list string) :
  PyStr.join sep (x :: h :: t) = x ++ sep ++ PyStr.join sep (h :: t).
Proof. reflexivity. Qed.

Lemma join_string_cons (sep : string) (a : ascii) (h : string) (t : list string) :
  PyStr.join sep (String a h :: t) = String a (PyStr.join sep (h :: t)).
Proof. destruct t; reflexivity. Qed.

(** Joining the pieces of a split gives the string back. *)
Lemma join_split (c : ascii) (s : string) :
  PyStr.join (String c "") (PyStr.split c s) = s.
Proof.
  induction s as [|a r IH]; [reflexivity|].
  cbn [PyStr.split].
  destruct (Ascii.eqb_spec a c) as [->|Hne].
  - destruct (PyStr.split c r) as [|h t] eqn:E; [exact (False_ind _ (split_nonempty c r E))|].
    rewrite join_cons, IH. reflexivity.
  - destruct (PyStr.split c r) as [|h t] eqn:E; [exact (False_ind _ (split_nonempty c r E))|].
    rewrite join_string_cons, IH. reflexivity.
Qed.

Lemma join_app (sep : string) (l1 l2 : list string) :
  l1 <> [] -> l2 <> [] ->
  PyStr.join sep (l1 ++ l2) = PyStr.join sep l1 ++ sep ++ PyStr.join sep l2.
Proof.
  intros H1 H2. induction l1 as [|x l1 IH]; [contradiction|].
  destruct l1 as [|y l1].
  - destruct l2 as [|z l2]; [contradiction|]. reflexivity.
  - change ((x :: y :: l1) ++ l2)%list with (x :: y :: (l1 ++ l2))%list.
    rewrite !join_cons.
    change (y :: (l1 ++ l2))%list with ((y :: l1) ++ l2)%list.
    rewrite IH by discriminate. rewrite !append_assoc. reflexivity.
Qed.

(** No piece of a split contains the separator. *)
Lemma split_pieces_free (c : ascii) (s t : string) :
  In t (PyStr.split c s) -> contains c t = false.
Proof.
  revert t. induction s as [|a r IH]; intros t Hin.
  - destruct Hin as [<-|[]]. reflexivity.
  - cbn [PyStr.split] in Hin.
    destruct (Ascii.eqb a c) eqn:Ha.
    + destruct Hin as [<-|Hin]; [reflexivity|apply IH; exact Hin].
    + destruct (PyStr.split c r) as [|h tl] eqn:E;
        [exact (False_ind _ (split_nonempty c r E))|].
      destruct Hin as [<-|Hin].
      * simpl. rewrite Ha. apply IH. left. reflexivity.
      * apply IH. right. exact Hin.
Qed.

Lemma split_free (c : ascii) (b : string) :
  contains c b = false -> PyStr.split c b = [b].
Proof.
  induction b as [|a r IH]; [reflexivity|].
  simpl. intros H. apply orb_false_iff in H as [Ha Hr].
  rewrite Ha, (IH Hr). reflexivity.
Qed.

(** A separator followed by a piece without separator adds one piece. *)
Lemma split_app_free (c : ascii) (a b : string) :
  contains c b = false ->
  PyStr.split c (a ++ String c b) = (PyStr.split c a ++ [b])%list.
Proof.
  intros Hb. induction a as [|x a IH].
  - simpl. rewrite Ascii.eqb_refl, (split_free c b Hb). reflexivity.
  - cbn [append PyStr.split]. rewrite IH.
    destruct (Ascii.eqb x c); [reflexivity|].
    destruct (PyStr.split c a) as [|h t] eqn:E;
      [exact (False_ind _ (split_nonempty c a E))|].
    reflexivity.
Qed.

Lemma parse_of_parts (protocol_dir : string) (lead : list string)
    (client network type : string) :
  lead <> [] ->
  path_parts protocol_dir = (lead ++ [client; network; type])%list ->
  parse_snapshot_path protocol_dir
  = Some (mkParsed (PyStr.join "-" lead) client network type).
Proof.
  intros Hne Hparts. unfold parse_snapshot_path. rewrite Hparts.
  assert (Hlen : (4 <=? List.length (lead ++ [client; network; type]))%nat = true).
  { apply Nat.leb_le. rewrite length_app. simpl.
    destruct lead; [contradiction|simpl; lia]. }
  rewrite Hlen.
  rewrite index_last, index_last_but_one, index_last_but_two, slice_to_neg_three.
  reflexivity.
Qed.

(** X1. When the cleaned name has at least four tokens, the four fields
    joined with ['-'] are the cleaned name again, and client, network and
    type contain no ['-']: only the chain can. *)
Theorem parsed_fields_reassemble :
  forall protocol_dir : string,
    4 <= List.length (path_parts protocol_dir) ->
    exists info,
      parse_snapshot_path protocol_dir = Some info
      /\ p_chain info ++ "-" ++ p_client info ++ "-" ++ p_network info
           ++ "-" ++ p_type info
         = clean_path protocol_dir
      /\ contains "-" (p_client info) = false
      /\ contains "-" (p_network info) = false
      /\ contains "-" (p_type info) = false.
Proof.
  intros protocol_dir Hlen.
  destruct (parse_at_least_four protocol_dir Hlen)
    as (lead & c & n & t & Hne & Hparts & Hparse).
  eexists. split; [exact Hparse|]. simpl.
  assert (Hin : forall x, In x [c; n; t] -> contains "-" x = false).
  { intros x Hx. apply (split_pieces_free "-" (clean_path protocol_dir)).
    fold (path_parts protocol_dir). rewrite Hparts.
    apply in_or_app. right. exact Hx. }
  split.
  - rewrite <- (join_split "-" (clean_path protocol_dir)).
    fold (path_parts protocol_dir). rewrite Hparts.
    rewrite join_app by (try assumption; discriminate). reflexivity.
  - repeat split; apply Hin; simpl; auto.
Qed.

Lemma parsed_fields_reassemble_witness :
  exists info,
    parse_snapshot_path "arbitrum-one-nitro-mainnet-full-v1/" = Some info
    /\ p_chain info ++ "-" ++ p_client info ++ "-" ++ p_network info
         ++ "-" ++ p_type info
       = "arbitrum-one-nitro-mainnet-full".
Proof.
  destruct (parsed_fields_reassemble "arbitrum-one-nitro-mainnet-full-v1/")
    as (info & Hp & Hj & _).
  - vm_compute. lia.
  - exists info. split; [exact Hp|exact Hj].
Defined.

(** X2. Round trip: a directory named [chain-client-network-type-v<digits>]
    with any number of trailing ['/'], where client, network and type have
    no ['-'], parses to exactly these four fields, whatever dashes the chain
    has. *)
Theorem parse_of_versioned_name :
  forall chain client network type ds slashes : string,
    contains "-" client = false ->
    contains "-" network = false ->
    contains "-" type = false ->
    all_digits ds = true -> ds <> "" ->
    PyStr.rstrip "/" slashes = "" ->
    parse_snapshot_path
      ((chain ++ "-" ++ client ++ "-" ++ network ++ "-" ++ type)
         ++ "-v" ++ ds ++ slashes)
    = Some (mkParsed chain client network type).
Proof.
  intros chain client network type ds slashes Hc Hn Ht Hds Hne Hsl.
  assert (Hparts :
            path_parts ((chain ++ "-" ++ client ++ "-" ++ network ++ "-" ++ type)
                          ++ "-v" ++ ds ++ slashes)
            = (PyStr.split "-" chain ++ [client; network; type])%list).
  { unfold path_parts. rewrite clean_path_versioned by assumption.
    replace (chain ++ "-" ++ client ++ "-" ++ network ++ "-" ++ type)
      with (((chain ++ String "-" client) ++ String "-" network) ++ String "-" type).
    - rewrite !split_app_free by assumption.
      rewrite <- !app_assoc. reflexivity.
    - rewrite !append_assoc. reflexivity. }
  rewrite (parse_of_parts _ _ _ _ _ (split_nonempty "-" chain) Hparts).
  rewrite join_split. reflexivity.
Qed.

Lemma parse_of_versioned_name_witness :
  parse_snapshot_path "arbitrum-one-nitro-mainnet-full-v12//"
  = Some (mkParsed "arbitrum-one" "nitro" "mainnet" "full").
Proof.
  exact (parse_of_versioned_name "arbitrum-one" "nitro" "mainnet" "full" "12" "//"
           eq_refl eq_refl eq_refl eq_refl
           (fun H => match H in (_ = s) return
                             (match s with EmptyString => False | String _ _ => True end)
                     with eq_refl => I end)
           eq_refl).
Defined.

(** X3. The chain is always a prefix of the cleaned name: with fewer than
    four tokens it is the text before the first ['-'], so the default
    ["unknown"] of line 60 is never taken. *)
Theorem chain_is_prefix :
  forall (protocol_dir : string) (info : ParsedInfo),
    parse_snapshot_path protocol_dir = Some info ->
    exists rest, clean_path protocol_dir = p_chain info ++ rest.
Proof.
  intros protocol_dir info Hparse.
  destruct (Nat.le_gt_cases 4 (List.length (path_parts protocol_dir))) as [H|H].
  - destruct (parse_at_least_four protocol_dir H)
      as (lead & c & n & t & Hne & Hparts & Hp).
    rewrite Hp in Hparse. injection Hparse as <-. simpl.
    eexists.
    rewrite <- (join_split "-" (clean_path protocol_dir)).
    fold (path_parts protocol_dir). rewrite Hparts.
    rewrite join_app by (try assumption; discriminate). reflexivity.
  - rewrite (parse_fewer_than_four protocol_dir H) in Hparse.
    injection Hparse as <-. simpl.
    rewrite <- (join_split "-" (clean_path protocol_dir)).
    fold (path_parts protocol_dir).
    destruct (path_parts protocol_dir) as [|h [|h' t]] eqn:E.
    + exact (False_ind _ (split_nonempty _ _ E)).
    + exists "". simpl. symmetry. apply append_nil_r.
    + eexists. rewrite join_cons. reflexivity.
Qed.

Lemma chain_is_prefix_witness :
  exists rest, clean_path "solana-v3/" = "solana" ++ rest.
Proof.
  exact (chain_is_prefix "solana-v3/" (mkParsed "solana" "unknown" "mainnet" "archive")
           eq_refl).
Defined.

(** ** The steps of a pass, one by one *)

Lemma query_first_none_paths (p : string) (rows : list Snapshot.t) :
  query_first p rows = None <-> ~ In p (paths rows).
Proof.
  unfold paths. induction rows as [|r rows IH]; simpl.
  - split; [intros _ []|reflexivity].
  - destruct (String.eqb_spec (Snapshot.snapshot_path r) p) as [E|E].
    + split; [discriminate|]. intros H. exfalso. apply H. left. exact E.
    + rewrite IH. split.
      * intros H [H'|H']; [contradiction|apply H; exact H'].
      * intros H H'. apply H. right. exact H'.
Qed.

Lemma commit_row_paths (p : string) (r' : Snapshot.t) (rows : list Snapshot.t) :
  Snapshot.snapshot_path r' = p -> paths (commit_row p r' rows) = paths rows.
Proof.
  intros Hp. unfold paths. induction rows as [|r rows IH]; simpl; [reflexivity|].
  destruct (String.eqb_spec (Snapshot.snapshot_path r) p) as [E|E]; simpl.
  - rewrite Hp, E. reflexivity.
  - rewrite IH. reflexivity.
Qed.

Lemma refreshed_row_path (env : Env) (h : HeaderInfo) (r : Snapshot.t) (now : nat) :
  Snapshot.snapshot_path (refreshed_row env h r now) = Snapshot.snapshot_path r.
Proof.
  destruct (refreshed_row_values env h r now)
    as (_ & _ & _ & _ & _ & _ & _ & _ & Hp & _).
  exact Hp.
Qed.

(** The four ways a version directory can go. *)
Lemma process_cases (env : Env) (s3 : ObjectStore) (protocol_dir version_dir : string)
    (st : ScanState) :
  let st' := process_version_dir env s3 protocol_dir version_dir st in
  let h := read_header s3 (version_dir ++ "manifest-header.json") in
  (has_body s3 version_dir = false
   /\ st' = mkScan (db st) (ticks st) (snapshots_found st) (new_snapshots st)
              (updated_snapshots st) (errors st ++ item_error s3 version_dir)%list
              (prefixes_scanned st))
  \/ (has_body s3 version_dir = true
      /\ item_error s3 version_dir = []
      /\ ((exists existing,
              query_first (natural_key version_dir) (db st) = Some existing
              /\ needs_update h existing = false
              /\ st' = found_one st)
          \/ (exists existing,
                 query_first (natural_key version_dir) (db st) = Some existing
                 /\ needs_update h existing = true
                 /\ st' = mkScan
                            (commit_row (natural_key version_dir)
                               (refreshed_row env h existing (ticks st)) (db st))
                            (S (ticks st)) (S (snapshots_found st)) (new_snapshots st)
                            (S (updated_snapshots st)) (errors st) (prefixes_scanned st))
          \/ (exists snapshot_id parsed_info,
                 query_first (natural_key version_dir) (db st) = None
                 /\ parse_snapshot_path protocol_dir = Some parsed_info
                 /\ PyStr.index (PyStr.split "/" (natural_key version_dir)) (-1)
                    = Some snapshot_id
                 /\ st' = mkScan
                            (db st ++ [new_snapshot env (ticks st) parsed_info version_dir
                                         snapshot_id
                                         (version_dir ++ "manifest-body.json")
                                         (version_dir ++ "manifest-header.json") h])%list
                            (S (ticks st)) (S (snapshots_found st)) (S (new_snapshots st))
                            (updated_snapshots st) (errors st) (prefixes_scanned st)))).
Proof.
  intros st' h. subst st'.
  unfold has_body, item_error.
  destruct (head_object s3 (version_dir ++ "manifest-body.json")) as [e|] eqn:Hhead.
  - left. split; [reflexivity|].
    unfold process_version_dir. rewrite Hhead.
    destruct e as [m|m]; simpl.
    + rewrite app_nil_r. destruct st; reflexivity.
    + reflexivity.
  - right. split; [reflexivity|]. split; [reflexivity|].
    unfold process_version_dir. rewrite Hhead.
    destruct (index_last_nonempty
                (PyStr.split "/"%char (PyStr.rstrip "/"%char version_dir))
                (split_nonempty _ _)) as [snapshot_id Hid].
    destruct (parse_snapshot_path_total protocol_dir) as [info Hinfo].
    rewrite Hid, Hinfo. fold (natural_key version_dir). fold h.
    destruct (query_first (natural_key version_dir) (db st)) as [existing|] eqn:Hq.
    + pose proof (query_first_path _ _ _ Hq) as Hpath.
      destruct (needs_update h existing) eqn:Hneed.
      * right. left. exists existing. split; [reflexivity|]. split; [exact Hneed|].
        rewrite (update_existing_changed env h existing st Hneed), Hpath. reflexivity.
      * left. exists existing. split; [reflexivity|]. split; [exact Hneed|].
        rewrite (update_existing_unchanged env h existing st Hneed). reflexivity.
    + right. right. exists snapshot_id, info.
      split; [reflexivity|]. split; [reflexivity|]. split; [exact Hid|]. reflexivity.
Qed.

Lemma same_frame_trans (a b c : Snapshot.t) :
  same_frame a b -> same_frame b c -> same_frame a c.
Proof.
  unfold same_frame. intros Hab Hbc.
  repeat match goal with H : _ /\ _ |- _ => destruct H end.
  repeat split; congruence.
Qed.


(** What one version directory does to the rows and to the counters of
    created and updated rows. *)
Lemma process_counts (env : Env) (s3 : ObjectStore) (protocol_dir version_dir : string)
    (st : ScanState) :
  let st' := process_version_dir env s3 protocol_dir version_dir st in
  exists created updated : bool,
    new_snapshots st' = new_snapshots st + (if created then 1 else 0)
    /\ updated_snapshots st' = updated_snapshots st + (if updated then 1 else 0)
    /\ (created = true -> updated = false)
    /\ (created || updated = true -> has_body s3 version_dir = true)
    /\ paths (db st')
       = (paths (db st) ++ (if created then [natural_key version_dir] else []))%list
    /\ (created = true -> ~ In (natural_key version_dir) (paths (db st))).
Proof.
  destruct (process_cases env s3 protocol_dir version_dir st)
    as [[Hb ->]|(Hb & He & [(x & _ & _ & ->)|[(x & Hq & _ & ->)|(i & p & Hq & _ & _ & ->)]])];
    simpl.
  - exists false, false. rewrite app_nil_r.
    repeat split; try lia; try discriminate.
  - exists false, false. rewrite app_nil_r.
    repeat split; try lia; try discriminate.
  - exists false, true. rewrite app_nil_r.
    repeat split; try lia; try discriminate; try (intros _; exact Hb).
    apply commit_row_paths. rewrite refreshed_row_path.
    apply (query_first_path _ _ _ Hq).
  - exists true, false.
    repeat split; try lia; try (intros _; exact Hb).
    + unfold paths. rewrite map_app. reflexivity.
    + intros _. apply query_first_none_paths. exact Hq.
Qed.

(** One version directory keeps every row in place, with its frame. *)
Lemma process_frame (env : Env) (s3 : ObjectStore) (protocol_dir version_dir : string)
    (st : ScanState) (i : nat) (r : Snapshot.t) :
  nth_error (db st) i = Some r ->
  exists r',
    nth_error (db (process_version_dir env s3 protocol_dir version_dir st)) i = Some r'
    /\ same_frame r r'.
Proof.
  intros Hi.
  destruct (process_cases env s3 protocol_dir version_dir st)
    as [[Hb ->]|(Hb & He & [(x & _ & _ & ->)|[(x & Hq & _ & ->)|(k & p & Hq & _ & _ & ->)]])];
    simpl.
  - exists r. split; [exact Hi|apply same_frame_refl].
  - exists r. split; [exact Hi|apply same_frame_refl].
  - set (h := read_header s3 (version_dir ++ "manifest-header.json")) in *.
    destruct (commit_row_nth _ x (refreshed_row env h x (ticks st)) _ i r Hq Hi)
      as [Hkeep|[-> Hnew]].
    + exists r. split; [exact Hkeep|apply same_frame_refl].
    + exists (refreshed_row env h x (ticks st)). split; [exact Hnew|].
      apply refreshed_row_values.
  - exists r. split; [|apply same_frame_refl].
    rewrite nth_error_app1; [exact Hi|].
    apply nth_error_Some. rewrite Hi. discriminate.
Qed.

Lemma visited_cons_visit (pd v : string) (evs : list event) :
  visited (Visit pd v :: evs) = v :: visited evs.
Proof. reflexivity. Qed.

Lemma visited_cons_enter (pd : string) (evs : list event) :
  visited (Enter pd :: evs) = visited evs.
Proof. reflexivity. Qed.


(** The rows and counters after a sequence of steps: rows are only added,
    at the end, one per created row and each with a path that was not
    there; the created and updated rows are no more than the directories
    found. *)
Lemma run_events_counts (env : Env) (s3 : ObjectStore) (evs : list event) (st : ScanState) :
  let st' := run_events env s3 evs st in
  exists created updated : nat,
    new_snapshots st' = new_snapshots st + created
    /\ updated_snapshots st' = updated_snapshots st + updated
    /\ created + updated <= List.length (filter (has_body s3) (visited evs))
    /\ exists added,
        paths (db st') = (paths (db st) ++ added)%list
        /\ List.length added = created
        /\ (NoDup (paths (db st)) -> NoDup (paths (db st'))).
Proof.
  revert st. induction evs as [|ev evs IH]; intros st.
  - exists 0, 0. simpl. repeat split; try lia.
    exists []. rewrite app_nil_r. repeat split; auto.
  - cbn [run_events fold_left]. fold (run_events env s3 evs (run_event env s3 ev st)).
    destruct (IH (run_event env s3 ev st))
      as (c & u & Hn & Hu & Hle & added & Hpaths & Hlen & Hnodup).
    cbv zeta. clear IH.
    destruct ev as [pd|pd v].
    + exists c, u. rewrite visited_cons_enter. simpl in *.
      repeat split; try assumption.
      exists added. repeat split; assumption.
    + rewrite visited_cons_visit. cbn [run_event] in *.
      destruct (process_counts env s3 pd v st)
        as (cb & ub & Hn1 & Hu1 & Hex & Hbody & Hp1 & Hfresh).
      exists ((if cb then 1 else 0) + c), ((if ub then 1 else 0) + u).
      rewrite Hn, Hu, Hn1, Hu1.
      split; [lia|]. split; [lia|]. split.
      { simpl. destruct cb, ub; simpl in *;
          try (specialize (Hex eq_refl); discriminate);
          try (rewrite (Hbody eq_refl); simpl; lia).
        destruct (has_body s3 v); simpl; lia. }
      exists ((if cb then [natural_key v] else []) ++ added)%list.
      split; [rewrite Hpaths, Hp1, <- app_assoc; reflexivity|]. split.
      { rewrite length_app. destruct cb; simpl; lia. }
      intros Hnd. apply Hnodup. rewrite Hp1.
      destruct cb; [|rewrite app_nil_r; exact Hnd].
      apply NoDup_app; [exact Hnd|repeat constructor; intros []|].
      intros x Hx [<-|[]]. exact (Hfresh eq_refl Hx).
Qed.

Lemma run_events_frame (env : Env) (s3 : ObjectStore) (evs : list event) (st : ScanState)
    (i : nat) (r : Snapshot.t) :
  nth_error (db st) i = Some r ->
  exists r',
    nth_error (db (run_events env s3 evs st)) i = Some r' /\ same_frame r r'.
Proof.
  revert st r. induction evs as [|ev evs IH]; intros st r Hi.
  - exists r. split; [exact Hi|apply same_frame_refl].
  - cbn [run_events fold_left]. fold (run_events env s3 evs (run_event env s3 ev st)).
    assert (Hstep : exists r1, nth_error (db (run_event env s3 ev st)) i = Some r1
                               /\ same_frame r r1).
    { destruct ev as [pd|pd v]; cbn [run_event].
      - exists r. split; [exact Hi|apply same_frame_refl].
      - apply process_frame. exact Hi. }
    destruct Hstep as (r1 & Hi1 & Hf1).
    destruct (IH _ _ Hi1) as (r' & Hi' & Hf').
    exists r'. split; [exact Hi'|]. exact (same_frame_trans _ _ _ Hf1 Hf').
Qed.

(** [_run_single_scan] with the store client at hand, in terms of the steps
    of the traversal. *)
Lemma run_single_scan_steps (env : Env) (s3 : ObjectStore) (scan_type : string) (w : World) :
  get_s3_client env = inl s3 ->
  let st := run_events env s3 (fst (bucket_events s3))
              (initial_state (snapshots w) (S (clock w))) in
  let errs := (errors st ++ traversal_error (snd (bucket_events s3)))%list in
  let start_time := utcnow env (clock w) in
  let end_time := utcnow env (ticks st) in
  _run_single_scan env scan_type w
  = (Completed scan_type (snapshots_found st) (new_snapshots st) (updated_snapshots st)
       (List.length (prefixes_scanned st)) errs (end_time - start_time)%Z end_time,
     mkWorld (db st)
       (scan_history w
          ++ [ScanHistory.mk start_time (Some end_time) scan_type
                (snapshots_found st) (new_snapshots st) (updated_snapshots st)
                (match errs with [] => None | _ => Some errs end)
                (Some (prefixes_scanned st)) (Some (end_time - start_time)%Z)])%list
       (S (ticks st))).
Proof.
  intros Hclient st errs start_time end_time.
  unfold _run_single_scan, _scan_all_snapshots.
  rewrite Hclient, scan_bucket_events.
  fold (initial_state (snapshots w) (S (clock w))). fold st.
  subst errs. unfold close_completed.
  destruct (snd (bucket_events s3)) as [e|]; simpl.
  - destruct (errors st ++ [error_scanning_bucket e])%list; reflexivity.
  - rewrite app_nil_r. destruct (errors st); reflexivity.
Qed.

(** ** What a whole pass reports and keeps *)





(** X6. A pass never deletes or moves a row, whether it completes or not:
    every row is afterwards at the same position with the same structural
    and externally-owned columns, and the paths of the table are the old
    ones followed by those of the rows created. *)
Theorem pass_keeps_rows :
  forall (env : Env) (scan_type : string) (w : World),
    let w' := snd (_run_single_scan env scan_type w) in
    (exists added, paths (snapshots w') = (paths (snapshots w) ++ added)%list)
    /\ forall (i : nat) (r : Snapshot.t),
        nth_error (snapshots w) i = Some r ->
        exists r', nth_error (snapshots w') i = Some r' /\ same_frame r r'.
Proof.
  intros env scan_type w w'. subst w'.
  destruct (get_s3_client env) as [s3|e] eqn:Hclient.
  - rewrite (run_single_scan_steps env s3 scan_type w Hclient). cbv zeta. simpl.
    set (st0 := initial_state (snapshots w) (S (clock w))).
    split.
    + destruct (run_events_counts env s3 (fst (bucket_events s3)) st0)
        as (c & u & _ & _ & _ & added & Hpaths & _).
      exists added. exact Hpaths.
    + intros i r Hi. apply run_events_frame. exact Hi.
  - unfold _run_single_scan. rewrite Hclient. simpl. split.
    + exists []. symmetry. apply app_nil_r.
    + intros i r Hi. exists r. split; [exact Hi|apply same_frame_refl].
Qed.

Lemma pass_keeps_rows_witness :
  exists r',
    nth_error (snapshots (snd (_run_single_scan Demo.env "manual"
                                 (mkWorld [Demo.arb1_row] [] 0)))) 0 = Some r'
    /\ same_frame Demo.arb1_row r'.
Proof.
  exact (proj2 (pass_keeps_rows Demo.env "manual" (mkWorld [Demo.arb1_row] [] 0))
           0 Demo.arb1_row eq_refl).
Defined.

(** X7. A pass never creates a second row for a path: when the paths of
    the table are pairwise different before a pass, they are afterwards. *)
Theorem pass_keeps_paths_unique :
  forall (env : Env) (scan_type : string) (w : World),
    NoDup (paths (snapshots w)) ->
    NoDup (paths (snapshots (snd (_run_single_scan env scan_type w)))).
Proof.
  intros env scan_type w Hnd.
  destruct (get_s3_client env) as [s3|e] eqn:Hclient.
  - rewrite (run_single_scan_steps env s3 scan_type w Hclient). cbv zeta. simpl.
    destruct (run_events_counts env s3 (fst (bucket_events s3))
                (initial_state (snapshots w) (S (clock w))))
      as (c & u & _ & _ & _ & added & _ & _ & Hkeep).
    apply Hkeep. exact Hnd.
  - unfold _run_single_scan. rewrite Hclient. exact Hnd.
Qed.

Lemma pass_keeps_paths_unique_witness :
  NoDup (paths (snapshots (snd (_run_single_scan Demo.env "manual"
                                  (mkWorld [Demo.arb1_row] [] 0))))).
Proof.
  apply (pass_keeps_paths_unique Demo.env "manual" (mkWorld [Demo.arb1_row] [] 0)).
  repeat constructor. intros [].
Defined.




(** ** Passes after the first *)









(** ** The header manifest in the row *)








(** ** Metrics are never cleared *)





(** ** The identity of a new row *)





(** ** update_snapshot and the passes *)






(** [update_snapshot] writes only block_height, has_blobs, the blob
    range, is_complete, external_metadata and last_updated_at: a field the
    request leaves out keeps its stored value, a field it gives is stored
    even when it is 0 or false, [last_updated_at] is stamped in every case,
    and the path, the structural columns and the manifest columns are
    those of the stored row. *)
Lemma update_snapshot_columns :
  forall (u : SnapshotUpdateRequest.t) (now : Z) (s s' : Snapshot.t),
    apply_update (Some u) now s = Some s' ->
    Snapshot.block_height s'
    = pick (SnapshotUpdateRequest.block_height u) PInt (Snapshot.block_height s)
    /\ Snapshot.has_blobs s'
       = pick (SnapshotUpdateRequest.has_blobs u) PBool (Snapshot.has_blobs s)
    /\ Snapshot.blob_start_block s'
       = pick (SnapshotUpdateRequest.blob_start_block u) PInt (Snapshot.blob_start_block s)
    /\ Snapshot.blob_end_block s'
       = pick (SnapshotUpdateRequest.blob_end_block u) PInt (Snapshot.blob_end_block s)
    /\ Snapshot.is_complete s'
       = pick (SnapshotUpdateRequest.is_complete u) PBool (Snapshot.is_complete s)
    /\ Snapshot.last_updated_at s' = now
    /\ scanner_view s' = scanner_view s
    /\ Snapshot.snapshot_metadata s' = Snapshot.snapshot_metadata s
    /\ Snapshot.manifest_body_path s' = Snapshot.manifest_body_path s
    /\ Snapshot.manifest_header_path s' = Snapshot.manifest_header_path s
    /\ Snapshot.chain s' = Snapshot.chain s
    /\ Snapshot.client s' = Snapshot.client s
    /\ Snapshot.network s' = Snapshot.network s
    /\ Snapshot.type s' = Snapshot.type s
    /\ Snapshot.snapshot_id s' = Snapshot.snapshot_id s
    /\ Snapshot.indexed_at s' = Snapshot.indexed_at s
    /\ Snapshot.is_active s' = Snapshot.is_active s.
Proof.
  intros u now s s' H. unfold apply_update in H.
  destruct (merge_external_metadata _ _); [|discriminate].
  injection H as <-. repeat split; reflexivity.
Qed.

Lemma update_snapshot_columns_witness :
  exists s',
    apply_update
      (Some (SnapshotUpdateRequest.mk (Some 0%Z) (Some false) None None None None))
      1700000100 Demo.arb1_row = Some s'
    /\ Snapshot.block_height s' = PInt 0
    /\ Snapshot.has_blobs s' = PBool false
    /\ Snapshot.last_updated_at s' = 1700000100%Z
    /\ Snapshot.external_metadata s' = PDict [("owner", PStr "ops")].
Proof.
  eexists. split; [reflexivity|].
  destruct (update_snapshot_columns
              (SnapshotUpdateRequest.mk (Some 0%Z) (Some false) None None None None)
              1700000100 Demo.arb1_row _ eq_refl)
    as (Hb & Hh & _ & _ & _ & Ht & _).
  split; [exact Hb|]. split; [exact Hh|]. split; [exact Ht|reflexivity].
Defined.







(** ** API keys *)

Lemma substring_prefix_length (n : nat) (s : string) :
  String.length (substring 0 n s) = Nat.min n (String.length s).
Proof.
  revert s. induction n as [|n IH]; intros [|a s]; simpl; try reflexivity.
  rewrite IH. reflexivity.
Qed.

Lemma substring_prefix (n : nat) (s : string) :
  exists rest, s = substring 0 n s ++ rest.
Proof.
  revert s. induction n as [|n IH]; intros [|a s]; simpl.
  - exists "". reflexivity.
  - eexists. reflexivity.
  - exists "". reflexivity.
  - destruct (IH s) as [rest Hrest]. exists rest. rewrite <- Hrest. reflexivity.
Qed.

(** X18. The key prefix kept for display is a prefix of the key of at most
    12 characters, and the whole key when it has 12 or fewer; taking the
    prefix twice changes nothing. *)
Theorem key_prefix_bounds :
  forall api_key : string,
    String.length (APIKey.get_key_prefix api_key)
    = Nat.min 12 (String.length api_key)
    /\ (exists rest, api_key = APIKey.get_key_prefix api_key ++ rest)
    /\ (String.length api_key <= 12 -> APIKey.get_key_prefix api_key = api_key)
    /\ APIKey.get_key_prefix (APIKey.get_key_prefix api_key)
       = APIKey.get_key_prefix api_key.
Proof.
  intros api_key.
  assert (Hlen : String.length (APIKey.get_key_prefix api_key)
                 = Nat.min 12 (String.length api_key)).
  { unfold APIKey.get_key_prefix.
    destruct (12 <? String.length api_key)%nat eqn:E.
    - apply substring_prefix_length.
    - apply Nat.ltb_ge in E. lia. }
  split; [exact Hlen|]. split.
  { unfold APIKey.get_key_prefix.
    destruct (12 <? String.length api_key)%nat.
    - apply substring_prefix.
    - exists "". symmetry. apply append_nil_r. }
  split.
  { intros Hle. unfold APIKey.get_key_prefix.
    apply Nat.ltb_ge in Hle. rewrite Hle. reflexivity. }
  unfold APIKey.get_key_prefix at 1.
  assert (Hshort : (12 <? String.length (APIKey.get_key_prefix api_key))%nat = false)
    by (apply Nat.ltb_ge; lia).
  rewrite Hshort. reflexivity.
Qed.

Lemma key_prefix_bounds_witness :
  APIKey.get_key_prefix "csnp_ab" = "csnp_ab".
Proof.
  apply (proj1 (proj2 (proj2 (key_prefix_bounds "csnp_ab")))).
  vm_compute. lia.
Defined.

Lemma find_key_position (h : string) (keys : list APIKey.t) (k : APIKey.t) :
  find_key h keys = Some k ->
  exists i,
    nth_error keys i = Some k
    /\ matches_key h k = true
    /\ forall k', commit_key h k' keys = replace_nth i k' keys.
Proof.
  induction keys as [|x keys IH]; simpl; [discriminate|].
  destruct (matches_key h x) eqn:E.
  - intros [= ->]. exists 0.
    split; [reflexivity|]. split; [exact E|]. intros k'. reflexivity.
  - intros H. destruct (IH H) as (i & Hi & Hm & Hc).
    exists (S i). split; [exact Hi|]. split; [exact Hm|].
    intros k'. simpl. rewrite Hc. reflexivity.
Qed.

Lemma replace_nth_map {A B} (f : A -> B) (i : nat) (x y : A) (l : list A) :
  nth_error l i = Some x -> f y = f x -> map f (replace_nth i y l) = map f l.
Proof.
  revert i. induction l as [|a l IH]; intros [|i] Hi Hf; simpl in *; try discriminate.
  - injection Hi as ->. rewrite Hf. reflexivity.
  - rewrite (IH i Hi Hf). reflexivity.
Qed.

Lemma replace_nth_same {A} (i : nat) (x : A) (l : list A) :
  i < List.length l -> nth_error (replace_nth i x l) i = Some x.
Proof.
  revert i. induction l as [|a l IH]; intros [|i] Hi; simpl in *; try lia.
  - reflexivity.
  - apply IH. lia.
Qed.




Lemma validate_refused :
  forall (hash_key : string -> string) (env : Env) (api_key : option string)
         (keys keys' : list APIKey.t) (now now' : nat) (e : HTTPException),
    validate_api_key hash_key env api_key keys now = (inl e, keys', now') ->
    (exists detail, e = mkHTTPException 401 detail)
    /\ map APIKey.usage_count keys' = map APIKey.usage_count keys
    /\ map APIKey.last_used_at keys' = map APIKey.last_used_at keys
    /\ map APIKey.key_hash keys' = map APIKey.key_hash keys
    /\ (e <> mkHTTPException 401 "API key has expired" -> keys' = keys /\ now' = now)
    /\ (e = mkHTTPException 401 "API key has expired" ->
        exists i k expires_at,
          nth_error keys i = Some k
          /\ APIKey.expires_at k = Some expires_at
          /\ (expires_at < utcnow env now)%Z
          /\ keys' = replace_nth i (APIKey.deactivated k) keys).
Proof.
  intros hash_key env api_key keys keys' now now' e H.
  unfold validate_api_key in H.
  destruct api_key as [[|a key0]|].
  - injection H as <- <- <-. split; [eexists; reflexivity|].
    repeat split; try reflexivity; discriminate.
  - set (key := String a key0) in *.
    destruct (find_key (hash_key key) keys) as [k|] eqn:Hfind.
    + destruct (find_key_position _ _ _ Hfind) as (i & Hi & Hm & Hc).
      destruct (APIKey.expires_at k) as [exp|] eqn:Hexp; [|discriminate].
      destruct (exp <? utcnow env now)%Z eqn:E; [|discriminate].
      injection H as <- <- <-. rewrite Hc.
      split; [eexists; reflexivity|].
      split; [apply (replace_nth_map _ _ k); [exact Hi|reflexivity]|].
      split; [apply (replace_nth_map _ _ k); [exact Hi|reflexivity]|].
      split; [apply (replace_nth_map _ _ k); [exact Hi|reflexivity]|].
      split; [intros Hne; contradiction|].
      intros _. exists i, k, exp. apply Z.ltb_lt in E. repeat split; assumption.
    + injection H as <- <- <-. split; [eexists; reflexivity|].
      repeat split; try reflexivity; discriminate.
  - injection H as <- <- <-. split; [eexists; reflexivity|].
    repeat split; try reflexivity; discriminate.
Qed.

(** X20. A refusal of [validate_api_key] is always status 401 and never
    counts as a use: the usage counters and [last_used_at] of all rows are
    as before.  The table changes only for an expired key, whose row is
    made inactive. *)
Theorem validate_refuses :
  forall (hash_key : string -> string) (env : Env) (api_key : option string)
         (keys keys' : list APIKey.t) (now now' : nat) (e : HTTPException),
    validate_api_key hash_key env api_key keys now = (inl e, keys', now') ->
    (exists detail, e = mkHTTPException 401 detail)
    /\ map APIKey.usage_count keys' = map APIKey.usage_count keys
    /\ map APIKey.last_used_at keys' = map APIKey.last_used_at keys
    /\ map APIKey.key_hash keys' = map APIKey.key_hash keys
    /\ (e <> mkHTTPException 401 "API key has expired" -> keys' = keys /\ now' = now)
    /\ (e = mkHTTPException 401 "API key has expired" ->
        exists i k expires_at,
          nth_error keys i = Some k
          /\ APIKey.expires_at k = Some expires_at
          /\ (expires_at < utcnow env now)%Z
          /\ keys' = replace_nth i (APIKey.deactivated k) keys).
Proof.
  exact validate_refused.
Qed.

Lemma validate_refuses_witness :
  exists keys' now',
    validate_api_key DemoKeys.hash Demo.env (Some "csnp_writer0000") DemoKeys.keys 200
    = (inl (mkHTTPException 401 "API key has expired"), keys', now')
    /\ map APIKey.usage_count keys' = [41%Z; 7%Z]
    /\ map APIKey.is_active keys' = [true; false].
Proof.
  eexists. eexists. split; [reflexivity|].
  destruct (validate_refuses DemoKeys.hash Demo.env (Some "csnp_writer0000")
              DemoKeys.keys _ 200 _ _ eq_refl) as (_ & Hu & _).
  split; [exact Hu|reflexivity].
Defined.

Lemma find_key_absent (h : string) (keys : list APIKey.t) :
  ~ In h (map APIKey.key_hash keys) -> find_key h keys = None.
Proof.
  induction keys as [|k keys IH]; simpl; [reflexivity|].
  intros Hn. unfold matches_key.
  destruct (String.eqb_spec (APIKey.key_hash k) h) as [E|_].
  - exfalso. apply Hn. left. exact E.
  - simpl. apply IH. intros Hin. apply Hn. right. exact Hin.
Qed.

Lemma find_key_deactivated (h : string) (keys : list APIKey.t) (k : APIKey.t) :
  NoDup (map APIKey.key_hash keys) ->
  find_key h keys = Some k ->
  find_key h (commit_key h (APIKey.deactivated k) keys) = None.
Proof.
  induction keys as [|x keys IH]; simpl; [discriminate|].
  intros Hnd Hfind. inversion Hnd as [|? ? Hnotin Hnd']; subst.
  destruct (matches_key h x) eqn:E.
  - injection Hfind as ->. simpl.
    unfold matches_key in *. apply andb_true_iff in E as [Hh _].
    simpl. rewrite andb_false_r.
    apply find_key_absent. apply String.eqb_eq in Hh. rewrite <- Hh. exact Hnotin.
  - simpl. rewrite E. apply IH; assumption.
Qed.

(** X21. An expired key stays out: when the digests of the table are
    pairwise different and [validate_api_key] refuses a key as expired,
    the row is inactive from then on and every later call with that key,
    at whatever time, is refused with ["Invalid API key"] and changes
    nothing. *)
Theorem expired_key_stays_out :
  forall (hash_key : string -> string) (env : Env) (api_key : option string)
         (keys keys' : list APIKey.t) (now now' : nat),
    NoDup (map APIKey.key_hash keys) ->
    validate_api_key hash_key env api_key keys now
    = (inl (mkHTTPException 401 "API key has expired"), keys', now') ->
    forall later : nat,
      validate_api_key hash_key env api_key keys' later
      = (inl (mkHTTPException 401 "Invalid API key"), keys', later).
Proof.
  intros hash_key env api_key keys keys' now now' Hnd H later.
  unfold validate_api_key in *.
  destruct api_key as [[|a key0]|]; try discriminate.
  set (key := String a key0) in *.
  destruct (find_key (hash_key key) keys) as [k|] eqn:Hfind; [|discriminate].
  destruct (APIKey.expires_at k) as [exp|]; [|discriminate].
  destruct (exp <? utcnow env now)%Z; [|discriminate].
  injection H as <- <-.
  rewrite (find_key_deactivated _ _ _ Hnd Hfind). reflexivity.
Qed.

Lemma expired_key_stays_out_witness :
  exists keys',
    validate_api_key DemoKeys.hash Demo.env (Some "csnp_writer0000") DemoKeys.keys 200
    = (inl (mkHTTPException 401 "API key has expired"), keys', 201)
    /\ validate_api_key DemoKeys.hash Demo.env (Some "csnp_writer0000") keys' 0
       = (inl (mkHTTPException 401 "Invalid API key"), keys', 0).
Proof.
  eexists. split; [reflexivity|].
  apply (expired_key_stays_out DemoKeys.hash Demo.env (Some "csnp_writer0000")
           DemoKeys.keys _ 200 201).
  - repeat constructor; simpl; intuition discriminate.
  - reflexivity.
Defined.

Lemma mem_string_in (k : string) (l : list string) :
  mem_string k l = true <-> In k l.
Proof.
  unfold mem_string. rewrite existsb_exists. split.
  - intros (x & Hin & Heq). apply String.eqb_eq in Heq. subst x. exact Hin.
  - intros Hin. exists k. split; [exact Hin|apply String.eqb_refl].
Qed.

Lemma validate_counts_use (hash_key : string -> string) (env : Env)
    (api_key : option string) (keys keys' : list APIKey.t) (now now' : nat)
    (k' : APIKey.t) :
  validate_api_key hash_key env api_key keys now = (inr k', keys', now') ->
  exists i k,
    nth_error keys i = Some k
    /\ nth_error keys' i = Some k'
    /\ APIKey.usage_count k' = (APIKey.usage_count k + 1)%Z
    /\ APIKey.scopes k' = APIKey.scopes k.
Proof.
  intros H. unfold validate_api_key in H.
  destruct api_key as [[|a key0]|]; try discriminate.
  destruct (find_key (hash_key (String a key0)) keys) as [k|] eqn:Hfind; [|discriminate].
  destruct (find_key_position _ _ _ Hfind) as (i & Hi & _ & Hc).
  assert (Hlt : i < List.length keys) by (apply nth_error_Some; rewrite Hi; discriminate).
  exists i, k. split; [exact Hi|].
  destruct (APIKey.expires_at k) as [exp|].
  - destruct (exp <? utcnow env now)%Z; [discriminate|].
    injection H as <- <- <-. rewrite Hc.
    split; [apply replace_nth_same; exact Hlt|]. split; reflexivity.
  - injection H as <- <- <-. rewrite Hc.
    split; [apply replace_nth_same; exact Hlt|]. split; reflexivity.
Qed.

Lemma require_scope_cases :
  forall (hash_key : string -> string) (env : Env) (scope : string)
         (api_key : option string) (keys keys' : list APIKey.t) (now now' : nat)
         (outcome : HTTPException + APIKey.t),
    require_scope hash_key env scope api_key keys now = (outcome, keys', now') ->
    match outcome with
    | inr k =>
        validate_api_key hash_key env api_key keys now = (inr k, keys', now')
        /\ (In scope (APIKey.scopes k) \/ In "admin" (APIKey.scopes k))
    | inl (mkHTTPException status_code detail) =>
        (status_code = 401
         /\ validate_api_key hash_key env api_key keys now
            = (inl (mkHTTPException 401 detail), keys', now'))
        \/ (status_code = 403
            /\ exists i k0 k,
                validate_api_key hash_key env api_key keys now = (inr k, keys', now')
                /\ ~ In scope (APIKey.scopes k)
                /\ ~ In "admin" (APIKey.scopes k)
                /\ nth_error keys i = Some k0
                /\ nth_error keys' i = Some k
                /\ APIKey.usage_count k = (APIKey.usage_count k0 + 1)%Z)
    end.
Proof.
  intros hash_key env scope api_key keys keys' now now' outcome H.
  unfold require_scope in H.
  destruct (validate_api_key hash_key env api_key keys now) as [[[e|k] ks] n] eqn:Hv.
  - injection H as <- <- <-.
    destruct (validate_refused hash_key env api_key keys ks now n e Hv)
      as ((detail & ->) & _).
    left. split; reflexivity.
  - injection H as <- <- <-. unfold check_scope.
    destruct (mem_string scope (APIKey.scopes k)) eqn:Hs; simpl.
    + split; [reflexivity|]. left. apply mem_string_in. exact Hs.
    + destruct (mem_string "admin" (APIKey.scopes k)) eqn:Ha; simpl.
      * split; [reflexivity|]. right. apply mem_string_in. exact Ha.
      * right. split; [reflexivity|].
        destruct (validate_counts_use _ _ _ _ _ _ _ _ Hv) as (i & k0 & Hi & Hi' & Hu & _).
        exists i, k0, k. split; [reflexivity|].
        split; [intros Hin; apply mem_string_in in Hin; congruence|].
        split; [intros Hin; apply mem_string_in in Hin; congruence|].
        repeat split; assumption.
Qed.

(** X22. [require_scope(scope)] lets a request through exactly when
    [validate_api_key] returns a key whose scopes contain [scope] or
    ["admin"]; the [is_admin] column plays no part.  A request it refuses
    with status 403 has still been counted as a use of the key. *)
Theorem require_scope_outcome :
  forall (hash_key : string -> string) (env : Env) (scope : string)
         (api_key : option string) (keys keys' : list APIKey.t) (now now' : nat)
         (outcome : HTTPException + APIKey.t),
    require_scope hash_key env scope api_key keys now = (outcome, keys', now') ->
    match outcome with
    | inr k =>
        validate_api_key hash_key env api_key keys now = (inr k, keys', now')
        /\ (In scope (APIKey.scopes k) \/ In "admin" (APIKey.scopes k))
    | inl (mkHTTPException status_code detail) =>
        (status_code = 401
         /\ validate_api_key hash_key env api_key keys now
            = (inl (mkHTTPException 401 detail), keys', now'))
        \/ (status_code = 403
            /\ exists i k0 k,
                validate_api_key hash_key env api_key keys now = (inr k, keys', now')
                /\ ~ In scope (APIKey.scopes k)
                /\ ~ In "admin" (APIKey.scopes k)
                /\ nth_error keys i = Some k0
                /\ nth_error keys' i = Some k
                /\ APIKey.usage_count k = (APIKey.usage_count k0 + 1)%Z)
    end.
Proof.
  exact require_scope_cases.
Qed.

Lemma require_scope_outcome_witness :
  exists keys' i k0 k,
    require_scope DemoKeys.hash Demo.env "snapshots:write" (Some "csnp_reader0000")
      DemoKeys.keys 0
    = (inl (mkHTTPException 403
              "API key does not have required scope: snapshots:write"), keys', 1)
    /\ nth_error DemoKeys.keys i = Some k0
    /\ nth_error keys' i = Some k
    /\ APIKey.usage_count k = (APIKey.usage_count k0 + 1)%Z.
Proof.
  pose proof (require_scope_outcome DemoKeys.hash Demo.env "snapshots:write"
                (Some "csnp_reader0000") DemoKeys.keys _ 0 _ _ eq_refl) as H.
  destruct H as [[H _]|(_ & i & k0 & k & _ & _ & _ & Hi & Hi' & Hu)]; [discriminate|].
  eexists. exists i, k0, k. split; [reflexivity|].
  split; [exact Hi|]. split; [exact Hi'|exact Hu].
Defined.


(** ** Creating and revoking keys *)






Lemma find_key_inactive (h : string) (keys : list APIKey.t) (i : nat) (k k' : APIKey.t) :
  NoDup (map APIKey.key_hash keys) ->
  nth_error keys i = Some k ->
  APIKey.key_hash k = h ->
  APIKey.key_hash k' = h -> APIKey.is_active k' = false ->
  find_key h (replace_nth i k' keys) = None.
Proof.
  revert i. induction keys as [|x keys IH]; intros [|i] Hnd Hi Hh Hh' Ha;
    simpl in *; try discriminate.
  - injection Hi as ->. inversion Hnd as [|? ? Hnotin _]; subst.
    unfold matches_key. rewrite Ha, andb_false_r.
    apply find_key_absent. exact Hnotin.
  - inversion Hnd as [|? ? Hnotin Hnd']; subst.
    unfold matches_key at 1.
    destruct (String.eqb_spec (APIKey.key_hash x) (APIKey.key_hash k)) as [E|_].
    + exfalso. apply Hnotin. rewrite E.
      apply (in_map APIKey.key_hash). apply (nth_error_In _ _ Hi).
    + simpl. apply (IH i Hnd' Hi); auto.
Qed.

(** X25. A revoked key is refused: when the digests of the table are
    pairwise different and [revoke_api_key] has committed on the row of a
    key, [validate_api_key] refuses that key with ["Invalid API key"] at
    any time and changes nothing; the revocation keeps the usage count and
    the scopes of the row. *)
Theorem revoked_key_is_refused :
  forall (hash_key : string -> string) (env : Env) (key admin_username : string)
         (keys : list APIKey.t) (i : nat) (k : APIKey.t) (revoked_at : Z) (now : nat),
    NoDup (map APIKey.key_hash keys) ->
    nth_error keys i = Some k ->
    APIKey.key_hash k = hash_key key ->
    key <> "" ->
    let keys' := replace_nth i (revoked revoked_at admin_username k) keys in
    validate_api_key hash_key env (Some key) keys' now
    = (inl (mkHTTPException 401 "Invalid API key"), keys', now)
    /\ map APIKey.usage_count keys' = map APIKey.usage_count keys
    /\ map APIKey.scopes keys' = map APIKey.scopes keys.
Proof.
  intros hash_key env key admin_username keys i k revoked_at now Hnd Hi Hh Hne keys'.
  split.
  - unfold validate_api_key. destruct key as [|a key0]; [contradiction|].
    subst keys'.
    rewrite (find_key_inactive (hash_key (String a key0)) keys i k
               (revoked revoked_at admin_username k) Hnd Hi Hh Hh eq_refl).
    reflexivity.
  - subst keys'. split; apply (replace_nth_map _ _ k); try exact Hi; reflexivity.
Qed.

Lemma revoked_key_is_refused_witness :
  validate_api_key DemoKeys.hash Demo.env (Some "csnp_reader0000")
    (replace_nth 0 (revoked 1700000010 "root" DemoKeys.reader) DemoKeys.keys) 5
  = (inl (mkHTTPException 401 "Invalid API key"),
     replace_nth 0 (revoked 1700000010 "root" DemoKeys.reader) DemoKeys.keys, 5).
Proof.
  apply (proj1 (revoked_key_is_refused DemoKeys.hash Demo.env "csnp_reader0000" "root"
                  DemoKeys.keys 0 DemoKeys.reader 1700000010 5
                  ltac:(repeat constructor; simpl; intuition discriminate)
                  eq_refl eq_refl ltac:(discriminate))).
Defined.
